(** * topic_modeling_agent: normalisation of extracted method labels and
      the incremental merge of the metadata table

    A shallow embedding of [src/topic_modeling_agent.py].  Python [str]
    values are Rocq strings whose characters are the code points below
    256; [dict]s that are only read and written by key are [gmap]s, the
    label sets of [normalize_map] are [gset]s, and [enum_methods], whose
    key order drives the loop of [process_pdf], is an association list in
    dictionary order. *)

From Stdlib Require Import String Ascii NArith Bool List Lia.
From stdpp Require Import base option list gmap sets strings sorting.

Local Open Scope string_scope.
Local Open Scope list_scope.

(** ** The [str] methods the program calls *)

Module PyStr.

(** [str.isspace] for one character: the ASCII white space (TAB..CR,
    FS..US, SPACE) and, in Latin-1, NEL and NBSP. *)
Definition is_space (c : ascii) : bool :=
  let n := N_of_ascii c in
  ((9 <=? n) && (n <=? 13) || (28 <=? n) && (n <=? 32)
   || (n =? 133) || (n =? 160))%N.

(** [str.lower] for one character: A..Z and the Latin-1 capitals
    (U+00C0..U+00DE but the multiplication sign) move up by 32. *)
Definition to_lower (c : ascii) : ascii :=
  let n := N_of_ascii c in
  if ((65 <=? n) && (n <=? 90)
      || (192 <=? n) && (n <=? 222) && negb (n =? 215))%N
  then ascii_of_N (n + 32) else c.

(** [s.lower()] *)
Fixpoint lower (s : string) : string :=
  match s with
  | EmptyString => EmptyString
  | String c r => String (to_lower c) (lower r)
  end.

(** [s.lstrip()] *)
Fixpoint lstrip (s : string) : string :=
  match s with
  | EmptyString => EmptyString
  | String c r => if is_space c then lstrip r else s
  end.

(** [s.rstrip()] *)
Fixpoint rstrip (s : string) : string :=
  match s with
  | EmptyString => EmptyString
  | String c r =>
      match rstrip r with
      | EmptyString => if is_space c then EmptyString else String c EmptyString
      | r' => String c r'
      end
  end.

(** [s.strip()]: white space removed at both ends. *)
Definition strip (s : string) : string := rstrip (lstrip s).

(** [s.split(sep)] for a one-character separator: every occurrence
    cuts, so the result has one more piece than there are separators
    and [''.split(';')] is [['']]. *)
Fixpoint split (sep : ascii) (s : string) : list string :=
  match s with
  | EmptyString => [EmptyString]
  | String c r =>
      if decide (c = sep) then EmptyString :: split sep r
      else match split sep r with
           | [] => [String c EmptyString]
           | p :: ps => String c p :: ps
           end
  end.

(** [sep.join(l)] *)
Fixpoint join (sep : string) (l : list string) : string :=
  match l with
  | [] => EmptyString
  | [x] => x
  | x :: r => x +:+ sep +:+ join sep r
  end.

(** [c in s] for a character. *)
Fixpoint contains (c : ascii) (s : string) : bool :=
  match s with
  | EmptyString => false
  | String d r => bool_decide (d = c) || contains c r
  end.

(** [os.path.basename] on POSIX: what follows the last slash. *)
Fixpoint basename (p : string) : string :=
  match p with
  | EmptyString => EmptyString
  | String c r => if contains "/" r then basename r
                  else if decide (c = "/"%char) then r else p
  end.

End PyStr.

(** ** Values, exceptions and the state of a run *)

(** A JSON value as [json.loads] returns it, or a spreadsheet cell as
    [read_excel] returns it.  The program only ever asks whether a value
    is a [str]; numbers, arrays and objects are kept as their text. *)
Inductive pyval : Type :=
| PStr (s : string)
| PNone
| PBool (b : bool)
| PNum (literal : string)
| PList (text : string)
| PDict (text : string).

#[global] Instance pyval_eq_dec : EqDecision pyval.
Proof. solve_decision. Defined.

(** The exceptions that reach [main]. *)
Inductive exn : Type :=
| RuntimeError (msg : string)
| ValueError (msg : string)
| AttributeError
| TypeError
| KeyError (key : string).

#[global] Instance exn_eq_dec : EqDecision exn.
Proof. solve_decision. Defined.

Inductive result (A : Type) : Type :=
| Ok (a : A)
| Raise (e : exn).
Arguments Ok {A} a.
Arguments Raise {A} e.

Definition is_ok {A} (r : result A) : bool :=
  match r with Ok _ => true | Raise _ => false end.

(** What the model's answer parses to: a JSON object or anything else. *)
Inductive json : Type :=
| JObject (record : gmap string pyval)
| JNotObject.

(** Computations that read and update the module-level [normalize_map]
    and may raise; the map survives an exception, as a Python global
    does. *)
Definition M (A : Type) : Type :=
  gmap string (gset string) → result A * gmap string (gset string).

Definition ret {A} (a : A) : M A := λ nm, (Ok a, nm).
Definition raise {A} (e : exn) : M A := λ nm, (Raise e, nm).
Definition bind {A B} (m : M A) (k : A → M B) : M B :=
  λ nm, match m nm with
        | (Ok a, nm') => k a nm'
        | (Raise e, nm') => (Raise e, nm')
        end.

Notation "'let*' x ':=' m 'in' k" := (bind m (λ x, k))
  (at level 10, x name, m at level 100, k at level 200, only parsing).

(** ** The vocabulary store (lines 11-23, 53-54, 125-127) *)

Module Vocabulary.

(** The dictionary built when [topic_methods.json] is missing. *)
Definition default_methods : list (string * list string) :=
  [("AnalyzedFields", []); ("TermPreprocessing", []);
   ("Clustering", []); ("ClusterAnalysis", [])].

(** [topic_methods.json] as the run finds it. *)
Inductive methods_file : Type :=
| NoFile
| FileJson (methods : list (string * list string))
| FileNotJson.

(** Lines 14-23: [json.load] raises on a file that is not JSON. *)
Definition load (f : methods_file) : result (list (string * list string)) :=
  match f with
  | NoFile => Ok default_methods
  | FileJson methods => Ok methods
  | FileNotJson => Raise (ValueError "JSONDecodeError")
  end.

(** Line 54: [{k: set(v) for k, v in enum_methods.items()}] *)
Definition init_normalize_map (enum_methods : list (string * list string))
  : gmap string (gset string) :=
  list_to_map ((λ kv, (kv.1, list_to_set kv.2)) <$> enum_methods).

(** Lines 125-127: [{k: sorted(v) for k, v in normalize_map.items()}] *)
Definition save_methods (normalize_map : gmap string (gset string))
  : gmap string (list string) :=
  (λ v, merge_sort String.le (elements v)) <$> normalize_map.

End Vocabulary.

(** ** The normaliser (lines 110-123) *)

Module Normalizer.

Definition sentinel : string := "Not specified".

(** [it.lower() == "not specified"] *)
Definition is_sentinel (it : string) : bool :=
  bool_decide (PyStr.lower it = "not specified").

(** Line 112: [[i.strip() for i in raw.split(";") if i.strip()]] *)
Definition items_of (raw : string) : list string :=
  filter (λ i, i ≠ "") (PyStr.strip <$> PyStr.split ";" raw).

(** [normalize_map[key].add(it)] *)
Definition add_label (key it : string) : M unit :=
  λ nm, match nm !! key with
        | Some labels => (Ok (), <[key := {[it]} ∪ labels]> nm)
        | None => (Raise (KeyError key), nm)
        end.

(** Lines 114-120, [known] being [enum_methods[key]]. *)
Fixpoint normalize_items (key : string) (known items normalized : list string)
  : M (list string) :=
  match items with
  | [] => ret normalized
  | it :: rest =>
      if is_sentinel it
      then normalize_items key known rest (normalized ++ [sentinel])
      else if bool_decide (it ∈ known)
      then normalize_items key known rest (normalized ++ [it])
      else let* _ := add_label key it in
           normalize_items key known rest (normalized ++ [it])
  end.

(** Lines 112-121 for one key; [raw.split] exists on [str] only. *)
Definition normalize_field (key : string) (known : list string) (raw : pyval)
  : M string :=
  match raw with
  | PStr s =>
      let* normalized := normalize_items key known (items_of s) [] in
      ret (match normalized with
           | [] => sentinel
           | _ => PyStr.join "; " normalized
           end)
  | _ => raise AttributeError
  end.

(** Lines 110-123: the loop over [enum_methods.keys()], rewriting
    [record] in place. *)
Fixpoint process_record (enum_methods : list (string * list string))
    (record : gmap string pyval) : M (gmap string pyval) :=
  match enum_methods with
  | [] => ret record
  | (key, known) :: rest =>
      let* text := normalize_field key known
                     (default (PStr sentinel) (record !! key)) in
      process_record rest (<[key := PStr text]> record)
  end.

(** [process_pdf]: lines 84-108 are the extractor, whose outcome for the
    given path is [extracted]; a parsed value that is no object has no
    [get]. *)
Definition process_pdf (enum_methods : list (string * list string))
    (extracted : result json) : M json :=
  match extracted with
  | Raise e => raise e
  | Ok JNotObject =>
      match enum_methods with
      | [] => ret JNotObject
      | _ => raise AttributeError
      end
  | Ok (JObject record) =>
      let* record' := process_record enum_methods record in
      ret (JObject record')
  end.

End Normalizer.

(** ** The table merger (lines 155-170) *)

Module Merger.

(** A [pandas.DataFrame] with the default integer index: its column
    labels and its rows in index order.  A row maps a column to its
    cell; a column the row has no value for (NaN) is absent from the
    map.  The order of the columns is not modelled. *)
Record DataFrame : Type := mkDF {
  df_columns : gset string;
  df_rows : list (gmap string pyval)
}.

(** [pd.DataFrame()] *)
Definition no_frame : DataFrame := mkDF ∅ [].

(** [pd.DataFrame(new_records)]: one row per dictionary, the columns
    are the keys that occur. *)
Definition from_records (new_records : list (gmap string pyval)) : DataFrame :=
  mkDF (⋃ (dom <$> new_records)) new_records.

(** [df.empty]: some axis has length 0. *)
Definition empty (df : DataFrame) : bool :=
  bool_decide (df_columns df = ∅) || bool_decide (df_rows df = []).

(** [df[column]] *)
Definition getitem (df : DataFrame) (column : string)
  : result (list (option pyval)) :=
  if decide (column ∈ df_columns df)
  then Ok ((λ row, row !! column) <$> df_rows df)
  else Raise (KeyError column).

(** [series.isin(values)]: cell by cell.  The program passes the
    [SourceFile] column of the new records, whose cells are all [str];
    a cell that is no [str] equals none of them. *)
Definition isin (series values : list (option pyval)) : list bool :=
  (λ cell, bool_decide (cell ∈ values)) <$> series.

(** [series == False] *)
Definition eq_False (series : list bool) : list bool := negb <$> series.

(** [df[mask]]: the rows whose mask entry is [True]. *)
Definition select (df : DataFrame) (mask : list bool) : DataFrame :=
  mkDF (df_columns df)
       (fst <$> filter (λ rm, rm.2 = true) (zip (df_rows df) mask)).

(** [pd.concat([a, b], ignore_index=True)] *)
Definition concat (a b : DataFrame) : DataFrame :=
  mkDF (df_columns a ∪ df_columns b) (df_rows a ++ df_rows b).

(** Lines 161-169. *)
Definition merge (df_existing : DataFrame)
    (new_records : list (gmap string pyval)) : result DataFrame :=
  let df_new := from_records new_records in
  let filtered :=
    if negb (empty df_existing) then
      match getitem df_existing "SourceFile" with
      | Raise e => Raise e
      | Ok ids =>
          match getitem df_new "SourceFile" with
          | Raise e => Raise e
          | Ok new_ids => Ok (select df_existing (eq_False (isin ids new_ids)))
          end
      end
    else Ok df_existing in
  match filtered with
  | Raise e => Raise e
  | Ok df_existing' => Ok (concat df_existing' df_new)
  end.

End Merger.

(** ** The run (lines 146-173) *)

Module Agent.

(** Lines 146-153: [new_records] and what went to [stderr], in the
    order of [pdfs]; [extract] is the outcome of lines 84-108 for each
    path. *)
Fixpoint collect (enum_methods : list (string * list string))
    (extract : string → result json) (pdfs : list string)
    (new_records : list (gmap string pyval)) (errors : list (string * exn))
    (normalize_map : gmap string (gset string))
  : list (gmap string pyval) * list (string * exn) * gmap string (gset string) :=
  match pdfs with
  | [] => (new_records, errors, normalize_map)
  | pdf :: rest =>
      match Normalizer.process_pdf enum_methods (extract pdf) normalize_map with
      | (Ok (JObject rec), nm) =>
          collect enum_methods extract rest
            (new_records ++ [<["SourceFile" := PStr (PyStr.basename pdf)]> rec])
            errors nm
      | (Ok JNotObject, nm) =>
          collect enum_methods extract rest new_records
            (errors ++ [(pdf, TypeError)]) nm
      | (Raise e, nm) =>
          collect enum_methods extract rest new_records
            (errors ++ [(pdf, e)]) nm
      end
  end.

(** The outcome of [main]: what was printed to [stderr]; the frame
    handed to [to_excel] at line 170, if the run got that far; and
    either that frame with the dictionary handed to [json.dump], or the
    exception that ended the run: the one of the merge, before anything
    is written, or the one of [to_excel], after which [save_methods] is
    not reached. *)
Record run : Type := mkRun {
  stderr : list (string * exn);
  handed : option Merger.DataFrame;
  outcome : result (Merger.DataFrame * gmap string (list string))
}.

(** Lines 146-173; [excel] is the table [read_excel] returns, if the
    file exists, and [to_excel] is what the spreadsheet writer does
    with a frame: it returns, or it raises on a cell it refuses. *)
Definition main (enum_methods : list (string * list string))
    (extract : string → result json)
    (to_excel : Merger.DataFrame → result unit) (pdfs : list string)
    (excel : option Merger.DataFrame) : run :=
  let '(new_records, errors, normalize_map) :=
    collect enum_methods extract pdfs [] []
      (Vocabulary.init_normalize_map enum_methods) in
  let df_existing := default Merger.no_frame excel in
  match Merger.merge df_existing new_records with
  | Raise e => mkRun errors None (Raise e)
  | Ok df_merged =>
      mkRun errors (Some df_merged)
        match to_excel df_merged with
        | Raise e => Raise e
        | Ok _ => Ok (df_merged, Vocabulary.save_methods normalize_map)
        end
  end.

(** The spreadsheet file after a run: it holds a table (or is still
    missing), or the writer raised while rewriting it and what it holds
    is not known. *)
Inductive disk : Type :=
| Holds (table : option Merger.DataFrame)
| Damaged.

(** The file after the run: as it was when line 170 was not reached,
    written from the merged frame when [to_excel] returned. *)
Definition excel_after (excel : option Merger.DataFrame) (r : run) : disk :=
  match handed r, outcome r with
  | None, _ => Holds excel
  | Some df_merged, Ok _ => Holds (Some df_merged)
  | Some _, Raise _ => Damaged
  end.

End Agent.

(** ** The vocabulary of the claims *)

Module Spec.

(** The four category names of the specification. *)
Definition categories : list string :=
  ["AnalyzedFields"; "TermPreprocessing"; "Clustering"; "ClusterAnalysis"].

(** [str.upper] for one character whose upper case is below 256. *)
Definition to_upper (c : ascii) : ascii :=
  let n := N_of_ascii c in
  if ((97 <=? n) && (n <=? 122)
      || (224 <=? n) && (n <=? 254) && negb (n =? 247))%N
  then ascii_of_N (n - 32) else c.

(** [casing s t]: [s] is [t] with the case of some letters changed. *)
Inductive casing : string → string → Prop :=
| casing_nil : casing "" ""
| casing_keep c s t : casing s t → casing (String c s) (String c t)
| casing_lower c s t :
    casing s t → casing (String (PyStr.to_lower c) s) (String c t)
| casing_upper c s t :
    casing s t → casing (String (to_upper c) s) (String c t).

(** What one item becomes in the output. *)
Definition canon (it : string) : string :=
  if Normalizer.is_sentinel it then Normalizer.sentinel else it.

(** The text of a field after normalisation. *)
Definition canonical_text (raw : string) : string :=
  match canon <$> Normalizer.items_of raw with
  | [] => Normalizer.sentinel
  | items => PyStr.join "; " items
  end.

(** The text of a field as the sentence on splitting and rejoining has
    it: split, trim, drop the empty pieces, rejoin what is left. *)
Definition rejoined_text (raw : string) : string :=
  match Normalizer.items_of raw with
  | [] => Normalizer.sentinel
  | items => PyStr.join "; " items
  end.

(** The labels a field text contributes: its items but the sentinel. *)
Definition labels_of (raw : string) : gset string :=
  list_to_set (filter (λ it, Normalizer.is_sentinel it = false)
                      (Normalizer.items_of raw)).

(** [record.get(key, "Not specified")] *)
Definition raw_of (record : gmap string pyval) (key : string) : pyval :=
  default (PStr Normalizer.sentinel) (record !! key).

Definition is_str (v : pyval) : bool :=
  match v with PStr _ => true | _ => false end.

(** Every category field of the record is text, or missing. *)
Definition well_typed (enum_methods : list (string * list string))
    (record : gmap string pyval) : bool :=
  forallb (λ kv, is_str (raw_of record kv.1)) enum_methods.

(** A trimmed, non-empty item without a semicolon. *)
Definition clean (it : string) : Prop :=
  PyStr.strip it = it ∧ it ≠ "" ∧ PyStr.contains ";" it = false.

(** A string that does not begin with white space. *)
Definition starts_clean (s : string) : Prop :=
  match s with
  | EmptyString => True
  | String c _ => PyStr.is_space c = false
  end.

(** The category fields the loop of [process_pdf] gets to normalise: all
    of them, or those before the first field that is no text. *)
Fixpoint fields_read (enum_methods : list (string * list string))
    (record : gmap string pyval) : list (string * string) :=
  match enum_methods with
  | [] => []
  | (key, _) :: rest =>
      match raw_of record key with
      | PStr raw => (key, raw) :: fields_read rest record
      | _ => []
      end
  end.

(** The fields normalised for one document. *)
Definition fields_of (enum_methods : list (string * list string))
    (extracted : result json) : list (string * string) :=
  match extracted with
  | Ok (JObject record) => fields_read enum_methods record
  | _ => []
  end.

(** The record with every category field in canonical form. *)
Fixpoint normalize_record (enum_methods : list (string * list string))
    (record : gmap string pyval) : gmap string pyval :=
  match enum_methods with
  | [] => record
  | (key, _) :: rest =>
      match raw_of record key with
      | PStr raw =>
          normalize_record rest (<[key := PStr (canonical_text raw)]> record)
      | _ => record
      end
  end.

(** The labels of the normalised fields go into the map. *)
Definition add_fields (fields : list (string * string))
    (nm : gmap string (gset string)) : gmap string (gset string) :=
  foldl (λ m kr, alter (λ labels, labels_of kr.2 ∪ labels) kr.1 m) nm fields.

(** The loop of lines 114-120 with the membership test removed: every
    item but the sentinel is added to the live set. *)
Fixpoint insert_always (key : string) (items normalized : list string)
  : M (list string) :=
  match items with
  | [] => ret normalized
  | it :: rest =>
      if Normalizer.is_sentinel it
      then insert_always key rest (normalized ++ [Normalizer.sentinel])
      else let* _ := Normalizer.add_label key it in
           insert_always key rest (normalized ++ [it])
  end.

(** [enum_methods] with every list of known labels emptied: the test
    [it not in enum_methods[key]] then always holds. *)
Definition forget (enum_methods : list (string * list string))
  : list (string * list string) :=
  (λ kv, (kv.1, [])) <$> enum_methods.

(** The state of a run: every category has its live set, which holds
    the labels loaded for it. *)
Definition consistent (enum_methods : list (string * list string))
    (nm : gmap string (gset string)) : Prop :=
  ∀ key known, (key, known) ∈ enum_methods →
    ∃ labels, nm !! key = Some labels ∧ list_to_set known ⊆ labels.

(** The record a document yields: [process_pdf] from the state the run
    starts in, then line 150. *)
Definition produced (enum_methods : list (string * list string))
    (extract : string → result json) (pdf : string)
  : option (gmap string pyval) :=
  match Normalizer.process_pdf enum_methods (extract pdf)
          (Vocabulary.init_normalize_map enum_methods) with
  | (Ok (JObject rec), _) =>
      Some (<["SourceFile" := PStr (PyStr.basename pdf)]> rec)
  | _ => None
  end.

(** What [main] prints for a document that yields no record. *)
Definition reported (enum_methods : list (string * list string))
    (extract : string → result json) (pdf : string) : option (string * exn) :=
  match Normalizer.process_pdf enum_methods (extract pdf)
          (Vocabulary.init_normalize_map enum_methods) with
  | (Ok (JObject _), _) => None
  | (Ok JNotObject, _) => Some (pdf, TypeError)
  | (Raise e, _) => Some (pdf, e)
  end.

(** What [process_pdf] returns, whatever the labels seen so far. *)
Definition outcome_of (enum_methods : list (string * list string))
    (extracted : result json) : result json :=
  match extracted with
  | Raise e => Raise e
  | Ok JNotObject =>
      match enum_methods with [] => Ok JNotObject | _ => Raise AttributeError end
  | Ok (JObject record) =>
      if well_typed enum_methods record
      then Ok (JObject (normalize_record enum_methods record))
      else Raise AttributeError
  end.

(** A label the vocabulary may gain: not empty and not a casing of the
    sentinel. *)
Definition admissible (l : string) : Prop :=
  l ≠ "" ∧ ¬ casing l Normalizer.sentinel.

(** From [nm] to [nm']: the same categories, no label lost, only
    admissible labels gained. *)
Definition grows (nm nm' : gmap string (gset string)) : Prop :=
  ∀ key,
    match nm !! key, nm' !! key with
    | Some labels, Some labels' =>
        labels ⊆ labels' ∧ ∀ l, l ∈ labels' → l ∉ labels → admissible l
    | None, None => True
    | _, _ => False
    end.

(** The vocabulary a run would save if only the documents that yield a
    record contributed: the loaded labels and, per category, the labels
    of those documents' fields. *)
Definition vocabulary_of_successes (enum_methods : list (string * list string))
    (extract : string → result json) (pdfs : list string)
  : gmap string (gset string) :=
  add_fields
    (mjoin ((λ pdf, fields_of enum_methods (extract pdf)) <$>
            filter (λ pdf, is_Some (produced enum_methods extract pdf)) pdfs))
    (Vocabulary.init_normalize_map enum_methods).

End Spec.

(** ** The answer of the model between the call and [json.loads]
      (lines 102-103) *)

Module Fence.

Definition LF : ascii := "010"%char.
Definition CR : ascii := "013"%char.

(** A line boundary of [str.splitlines] below 256: LF, VT, FF, CR, FS,
    GS, RS and NEL. *)
Definition is_linebreak (c : ascii) : bool :=
  let n := N_of_ascii c in
  ((10 <=? n) && (n <=? 13) || (28 <=? n) && (n <=? 30) || (n =? 133))%N.

(** [s.splitlines()]: the lines without their ends; CR LF is one
    boundary, and a boundary at the very end opens no further line. *)
Fixpoint splitlines (s : string) : list string :=
  match s with
  | EmptyString => []
  | String c r =>
      if is_linebreak c then
        EmptyString ::
          match r with
          | String d r2 =>
              if decide (c = CR ∧ d = LF) then splitlines r2 else splitlines r
          | EmptyString => []
          end
      else match splitlines r with
           | [] => [String c EmptyString]
           | l :: ls => String c l :: ls
           end
  end.

(** [s.startswith(prefix)] *)
Fixpoint startswith (prefix s : string) : bool :=
  match prefix with
  | EmptyString => true
  | String p ps =>
      match s with
      | EmptyString => false
      | String c r => bool_decide (c = p) && startswith ps r
      end
  end.

(** Some character of [s] is a line boundary. *)
Fixpoint has_linebreak (s : string) : bool :=
  match s with
  | EmptyString => false
  | String c r => is_linebreak c || has_linebreak r
  end.

Definition fence : string := "```".

(** Lines 102-103. *)
Definition unfence (content : string) : string :=
  if startswith fence content
  then PyStr.join (String LF EmptyString)
         (filter (λ line, startswith fence line = false) (splitlines content))
  else content.

End Fence.

(** ** The documents of a run (lines 141-144) *)

Module Listing.

(** [s.endswith(suffix)] *)
Fixpoint endswith (suffix s : string) : bool :=
  match s with
  | EmptyString => bool_decide (suffix = EmptyString)
  | String c r => bool_decide (String c r = suffix) || endswith suffix r
  end.

(** [os.path.join(a, b)] on POSIX. *)
Definition path_join (a b : string) : string :=
  if Fence.startswith "/" b then b
  else if bool_decide (a = "") || endswith "/" a then a +:+ b
  else a +:+ "/" +:+ b.

(** Lines 141-144: [listing] is [os.listdir(input)] when the input is a
    directory. *)
Definition pdfs_of (input : string) (listing : option (list string))
  : list string :=
  match listing with
  | Some names =>
      path_join input <$>
        filter (λ f, endswith ".pdf" (PyStr.lower f) = true) names
  | None => [input]
  end.

End Listing.

(** ** [generate_methods.py], lines 32-55 *)

Module GenerateMethods.

(** The column titles, as code points: "¿Qué se analiza?",
    "Preprocesamiento de Términos", "Clustering", "Análisis de
    Clusters". *)
Definition columns_map : list (string * string) :=
  [("AnalyzedFields",
    String "191"%char ("Qu" +:+ String "233"%char " se analiza?"));
   ("TermPreprocessing",
    "Preprocesamiento de T" +:+ String "233"%char "rminos");
   ("Clustering", "Clustering");
   ("ClusterAnalysis",
    "An" +:+ String "225"%char "lisis de Clusters")].

(** [str(v)], the text [astype(str)] gives a cell; the text of a number
    is the one it is kept as. *)
Definition py_str (v : pyval) : string :=
  match v with
  | PStr s => s
  | PNone => "None"
  | PBool true => "True"
  | PBool false => "False"
  | PNum literal => literal
  | PList text => text
  | PDict text => text
  end.

(** [series.dropna()]: NaN (no cell) and [None] go. *)
Definition dropna (series : list (option pyval)) : list pyval :=
  omap (λ cell, match cell with
                | Some PNone | None => None
                | Some v => Some v
                end) series.

(** [series.unique()]: the values in the order they first occur. *)
Fixpoint unique_from (seen items : list string) : list string :=
  match items with
  | [] => []
  | x :: rest =>
      if bool_decide (x ∈ seen) then unique_from seen rest
      else x :: unique_from (x :: seen) rest
  end.

Definition unique (items : list string) : list string := unique_from [] items.

(** Lines 46-53: split every cell on ";", one row per piece, trimmed. *)
Definition column_items (series : list (option pyval)) : list string :=
  PyStr.strip <$> mjoin (PyStr.split ";" <$> (py_str <$> dropna series)).

(** Line 54: [sorted([i for i in items.unique() if i])] *)
Definition unique_items (items : list string) : list string :=
  merge_sort String.le (filter (λ i, i ≠ "") (unique items)).

(** Lines 40-55: the dictionary written to the output file, in the order
    of [columns_map]. *)
Definition methods (df : Merger.DataFrame) : list (string * list string) :=
  (λ kc, (kc.1,
          match Merger.getitem df kc.2 with
          | Ok series => unique_items (column_items series)
          | Raise _ => []
          end)) <$> columns_map.

End GenerateMethods.

Example strip_ex : PyStr.strip "  Stop-word removal 	" = "Stop-word removal".
Proof. reflexivity. Qed.
Example split_ex : PyStr.split ";" "a; b;;c" = ["a"; " b"; ""; "c"].
Proof. reflexivity. Qed.
Example split_empty_ex : PyStr.split ";" "" = [""].
Proof. reflexivity. Qed.
Example lower_ex : PyStr.lower "NoT SpeciFIED" = "not specified".
Proof. reflexivity. Qed.
Example join_ex : PyStr.join "; " ["a"; "b"; "c"] = "a; b; c".
Proof. reflexivity. Qed.
Example basename_ex : PyStr.basename "papers/2024/a.pdf" = "a.pdf".
Proof. reflexivity. Qed.
Example basename_ex2 : PyStr.basename "a.pdf" = "a.pdf".
Proof. reflexivity. Qed.

Example normalize_field_ex :
  Normalizer.normalize_field "Clustering" ["LDA"]
    (PStr " LDA ;not SPECIFIED;; BERTopic ; LDA")
    {["Clustering" := {["LDA"]}]}
  = (Ok "LDA; Not specified; BERTopic; LDA",
     {["Clustering" := {["BERTopic"; "LDA"]}]}).
Proof. vm_compute. reflexivity. Qed.


(** ** Facts about the string methods *)

Section StrFacts.
Import PyStr.

Lemma app_cons c (s t : string) : String c s +:+ t = String c (s +:+ t).
Proof. reflexivity. Qed.

Lemma app_assoc' (s t u : string) : (s +:+ t) +:+ u = s +:+ t +:+ u.
Proof. induction s as [|c s IH]; [done|]. rewrite !app_cons. by f_equal. Qed.

Lemma contains_app c (s t : string) :
  contains c (s +:+ t) = contains c s || contains c t.
Proof.
  induction s as [|d s IH]; [done|].
  rewrite app_cons. simpl. rewrite IH. by rewrite orb_assoc.
Qed.

Lemma split_only sep s : contains sep s = false → split sep s = [s].
Proof.
  induction s as [|c s IH]; simpl; [done|].
  intros [Hc Hs]%orb_false_elim. apply bool_decide_eq_false in Hc.
  rewrite decide_False by done. by rewrite IH.
Qed.

Lemma split_app_sep sep a b :
  contains sep a = false →
  split sep (a +:+ String sep b) = a :: split sep b.
Proof.
  induction a as [|c a IH].
  - intros _. change ("" +:+ String sep b) with (String sep b). simpl.
    by rewrite decide_True.
  - simpl. intros [Hc Ha]%orb_false_elim. apply bool_decide_eq_false in Hc.
    change (String c a +:+ String sep b) with (String c (a +:+ String sep b)).
    simpl. rewrite decide_False by done. by rewrite IH.
Qed.

Lemma split_pieces sep s p : p ∈ split sep s → contains sep p = false.
Proof.
  revert p. induction s as [|c s IH]; simpl; intros p.
  - by intros ->%list_elem_of_singleton.
  - destruct (decide (c = sep)) as [->|Hc].
    + intros [->|Hp]%elem_of_cons; [done|]. by apply IH.
    + destruct (split sep s) as [|q qs] eqn:Hq.
      * intros ->%list_elem_of_singleton. simpl.
        by rewrite bool_decide_eq_false_2.
      * intros [->|Hp]%elem_of_cons.
        -- simpl. rewrite bool_decide_eq_false_2 by done. simpl.
           apply IH. by left.
        -- apply IH. by right.
Qed.

Lemma contains_lstrip c s : contains c s = false → contains c (lstrip s) = false.
Proof.
  induction s as [|d s IH]; simpl; [done|].
  intros H. destruct (is_space d); [|done].
  apply orb_false_elim in H as [_ H]. by apply IH.
Qed.

Lemma contains_rstrip c s : contains c s = false → contains c (rstrip s) = false.
Proof.
  induction s as [|d s IH]; simpl; [done|].
  intros [Hd Hs]%orb_false_elim. specialize (IH Hs).
  destruct (rstrip s) as [|e r].
  - destruct (is_space d); [done|]. simpl. by rewrite Hd.
  - simpl. rewrite Hd. exact IH.
Qed.

Lemma contains_strip c s : contains c s = false → contains c (strip s) = false.
Proof. intros H. by apply contains_rstrip, contains_lstrip. Qed.

Lemma rstrip_idem s : rstrip (rstrip s) = rstrip s.
Proof.
  induction s as [|c s IH]; simpl; [done|].
  destruct (rstrip s) as [|d r] eqn:Hr.
  - destruct (is_space c) eqn:Hc; [done|]. simpl. by rewrite Hc.
  - simpl in *. by rewrite IH.
Qed.

Lemma lstrip_starts_clean s : Spec.starts_clean (lstrip s).
Proof.
  induction s as [|c s IH]; simpl; [done|].
  destruct (is_space c) eqn:Hc; [done|]. simpl. done.
Qed.

Lemma lstrip_id s : Spec.starts_clean s → lstrip s = s.
Proof. destruct s as [|c s]; simpl; [done|]. by intros ->. Qed.

Lemma rstrip_starts_clean s : Spec.starts_clean s → Spec.starts_clean (rstrip s).
Proof.
  destruct s as [|c s]; simpl; [done|]. intros Hc.
  destruct (rstrip s); [by rewrite Hc|done].
Qed.

Lemma strip_idem s : strip (strip s) = strip s.
Proof.
  unfold strip.
  rewrite (lstrip_id (rstrip (lstrip s))).
  - apply rstrip_idem.
  - apply rstrip_starts_clean, lstrip_starts_clean.
Qed.

Lemma strip_space_cons c s : is_space c = true → strip (String c s) = strip s.
Proof. intros H. unfold strip. simpl. by rewrite H. Qed.

Lemma lower_to_lower c : to_lower (to_lower c) = to_lower c.
Proof. by destruct c as [[] [] [] [] [] [] [] []]. Qed.

Lemma lower_to_upper c : to_lower (Spec.to_upper c) = to_lower c.
Proof. by destruct c as [[] [] [] [] [] [] [] []]. Qed.

Lemma lower_casing s t : Spec.casing s t → lower s = lower t.
Proof.
  induction 1 as [|c s t _ IH|c s t _ IH|c s t _ IH]; simpl;
    rewrite ?lower_to_lower, ?lower_to_upper; congruence.
Qed.

End StrFacts.

(** ** Items, their canonical form and the label loop *)

Section ItemFacts.
Import PyStr Normalizer Spec.

Lemma items_of_clean raw : Forall clean (items_of raw).
Proof.
  apply Forall_forall. intros it [Hne Hit]%list_elem_of_filter.
  apply list_elem_of_fmap in Hit as (piece & -> & Hp).
  repeat split; [apply strip_idem|done|].
  by apply contains_strip, (split_pieces _ raw).
Qed.

Lemma sentinel_clean : clean sentinel.
Proof. by vm_compute. Qed.

Lemma canon_clean it : clean it → clean (canon it).
Proof.
  intros H. unfold canon. destruct (is_sentinel it); [apply sentinel_clean|done].
Qed.

Lemma canon_idem it : canon (canon it) = canon it.
Proof. unfold canon. by destruct (is_sentinel it) eqn:H; [|rewrite H]. Qed.

Lemma canon_sentinel it : is_sentinel (canon it) = is_sentinel it.
Proof. unfold canon. by destruct (is_sentinel it) eqn:H. Qed.

Lemma join_cons2 sep x y r : join sep (x :: y :: r) = x +:+ sep +:+ join sep (y :: r).
Proof. reflexivity. Qed.

Lemma split_join (l : list string) : ∀ p x,
  contains ";" p = false →
  Forall (λ it, contains ";" it = false) (x :: l) →
  split ";" (p +:+ join "; " (x :: l)) = (p +:+ x) :: ((λ it, " " +:+ it) <$> l).
Proof.
  induction l as [|y l IH]; intros p x Hp Hl.
  - simpl. apply split_only. rewrite contains_app, Hp.
    by apply Forall_cons in Hl as [-> _].
  - apply Forall_cons in Hl as [Hx Hl].
    rewrite join_cons2, <- app_assoc'.
    change ("; " +:+ join "; " (y :: l))
      with (String ";" (" " +:+ join "; " (y :: l))).
    rewrite split_app_sep by (by rewrite contains_app, Hp, Hx).
    by rewrite IH.
Qed.

Lemma items_of_join (l : list string) :
  l ≠ [] → Forall clean l → items_of (join "; " l) = l.
Proof.
  destruct l as [|x l]; [done|]. intros _ Hl. unfold items_of.
  change (join "; " (x :: l)) with ("" +:+ join "; " (x :: l)).
  rewrite split_join; [|done|].
  2:{ eapply Forall_impl; [exact Hl|]. by intros it (_ & _ & ?). }
  change ("" +:+ x) with x. rewrite fmap_cons, <- list_fmap_compose.
  assert (∀ m : list string, Forall clean m →
    filter (λ i, i ≠ "") ((strip ∘ (λ it, " " +:+ it)) <$> m) = m) as Htl.
  { induction m as [|y m IH]; [done|]. intros [Hy Hm]%Forall_cons.
    rewrite fmap_cons. simpl.
    change (" " +:+ y) with (String " " y).
    rewrite strip_space_cons by done.
    destruct Hy as (-> & Hne & _). rewrite filter_cons_True by done.
    by rewrite IH. }
  apply Forall_cons in Hl as [(Hx & Hne & _) Hl].
  rewrite Hx, filter_cons_True by done. by rewrite Htl.
Qed.

Lemma canonical_text_items raw :
  items_of raw ≠ [] → canonical_text raw = join "; " (canon <$> items_of raw).
Proof.
  unfold canonical_text. by destruct (items_of raw).
Qed.

(** The items of a canonical text are the canonical items. *)
Lemma items_of_canonical_text raw :
  items_of (canonical_text raw) =
  match items_of raw with [] => [sentinel] | l => canon <$> l end.
Proof.
  unfold canonical_text. destruct (items_of raw) as [|x l] eqn:Hi; [done|].
  change (items_of (join "; " (canon <$> x :: l)) = canon <$> x :: l).
  apply items_of_join; [done|].
  apply Forall_fmap. rewrite <- Hi.
  eapply Forall_impl; [apply items_of_clean|].
  intros it. apply canon_clean.
Qed.

Lemma canonical_text_idem raw :
  canonical_text (canonical_text raw) = canonical_text raw.
Proof.
  unfold canonical_text at 1. rewrite items_of_canonical_text.
  unfold canonical_text.
  destruct (items_of raw) as [|x l]; [done|].
  rewrite <- list_fmap_compose.
  rewrite (list_fmap_ext (canon ∘ canon) canon (x :: l)); [done|].
  intros _ it _. apply canon_idem.
Qed.

Lemma labels_of_canonical_text raw :
  labels_of (canonical_text raw) = labels_of raw.
Proof.
  unfold labels_of. rewrite items_of_canonical_text.
  destruct (items_of raw) as [|x l]; [done|]. f_equal.
  induction (x :: l) as [|y m IH]; [done|].
  rewrite fmap_cons, !filter_cons, canon_sentinel, IH.
  unfold canon at 1. by destruct (is_sentinel y).
Qed.

End ItemFacts.

(** ** What the loops compute *)

Section LoopFacts.
Import PyStr Normalizer Spec.

Lemma normalize_items_run key known items : ∀ acc nm labels,
  nm !! key = Some labels →
  normalize_items key known items acc nm =
  (Ok (acc ++ (canon <$> items)),
   <[key := list_to_set
              (filter (λ it, is_sentinel it = false ∧ it ∉ known) items)
            ∪ labels]> nm).
Proof.
  induction items as [|it rest IH]; intros acc nm labels Hkey.
  - simpl. unfold ret. rewrite app_nil_r. f_equal.
    rewrite (left_id_L ∅ (∪)).
    by rewrite insert_id.
  - simpl. unfold canon at 1. destruct (is_sentinel it) eqn:Hs.
    + rewrite (IH _ _ _ Hkey), <- app_assoc. simpl.
      rewrite filter_cons_False; [done|]. intros [? _]. congruence.
    + destruct (bool_decide (it ∈ known)) eqn:Hk.
      * apply bool_decide_eq_true in Hk.
        rewrite (IH _ _ _ Hkey), <- app_assoc. simpl.
        rewrite filter_cons_False; [done|]. by intros [_ ?].
      * apply bool_decide_eq_false in Hk.
        unfold bind, add_label. rewrite Hkey.
        rewrite (IH _ _ ({[it]} ∪ labels)) by apply lookup_insert_eq.
        rewrite <- app_assoc. simpl. rewrite insert_insert_eq.
        rewrite filter_cons_True by done. do 2 f_equal.
        rewrite list_to_set_cons. apply set_eq. intros l.
        rewrite !elem_of_union. tauto.
Qed.

Lemma insert_always_run key items : ∀ acc nm labels,
  nm !! key = Some labels →
  insert_always key items acc nm =
  (Ok (acc ++ (canon <$> items)),
   <[key := list_to_set (filter (λ it, is_sentinel it = false) items)
            ∪ labels]> nm).
Proof.
  induction items as [|it rest IH]; intros acc nm labels Hkey.
  - simpl. unfold ret. rewrite app_nil_r. f_equal.
    rewrite (left_id_L ∅ (∪)).
    by rewrite insert_id.
  - simpl. unfold canon at 1. destruct (is_sentinel it) eqn:Hs.
    + rewrite (IH _ _ _ Hkey), <- app_assoc. simpl.
      rewrite filter_cons_False; [done|]. congruence.
    + unfold bind, add_label. rewrite Hkey.
      rewrite (IH _ _ ({[it]} ∪ labels)) by apply lookup_insert_eq.
      rewrite <- app_assoc. simpl. rewrite insert_insert_eq.
      rewrite filter_cons_True by done. do 2 f_equal.
      rewrite list_to_set_cons. apply set_eq. intros l.
      rewrite !elem_of_union. tauto.
Qed.

(** Labels already in the live set need no test. *)
Lemma guard_absorbed (known items : list string) (labels : gset string) :
  list_to_set known ⊆ labels →
  list_to_set (filter (λ it, is_sentinel it = false ∧ it ∉ known) items)
    ∪ labels
  = list_to_set (filter (λ it, is_sentinel it = false) items) ∪ labels.
Proof.
  intros Hsub. apply set_eq. intros l.
  rewrite !elem_of_union, !elem_of_list_to_set, !list_elem_of_filter.
  split; [tauto|]. intros [[Hs Hl]|?]; [|tauto].
  destruct (decide (l ∈ known)) as [Hk|Hk]; [|tauto].
  right. apply Hsub. by apply elem_of_list_to_set.
Qed.

Lemma normalize_field_run key known raw nm labels :
  nm !! key = Some labels →
  normalize_field key known (PStr raw) nm =
  (Ok (canonical_text raw),
   <[key := list_to_set
              (filter (λ it, is_sentinel it = false ∧ it ∉ known)
                      (items_of raw))
            ∪ labels]> nm).
Proof.
  intros Hkey. unfold normalize_field, bind.
  rewrite (normalize_items_run _ _ _ _ _ _ Hkey). simpl.
  unfold ret, canonical_text. by destruct (canon <$> items_of raw).
Qed.

Lemma normalize_field_consistent key known raw nm labels :
  nm !! key = Some labels → list_to_set known ⊆ labels →
  normalize_field key known (PStr raw) nm =
  (Ok (canonical_text raw), alter (λ ls, labels_of raw ∪ ls) key nm).
Proof.
  intros Hkey Hsub. rewrite (normalize_field_run _ _ _ _ _ Hkey).
  rewrite guard_absorbed by done. f_equal.
  apply map_eq. intros k. rewrite lookup_insert, lookup_alter.
  case_decide; [subst k; by rewrite Hkey|done].
Qed.

Lemma consistent_alter enum nm key (extra : gset string) :
  consistent enum nm → consistent enum (alter (λ ls, extra ∪ ls) key nm).
Proof.
  intros Hc k known Hin. destruct (Hc k known Hin) as (ls & Hk & Hsub).
  rewrite lookup_alter. case_decide.
  - subst k. rewrite Hk. simpl. eexists; split; [done|]. set_solver.
  - eauto.
Qed.

Lemma consistent_add_fields enum fields : ∀ nm,
  consistent enum nm → consistent enum (add_fields fields nm).
Proof.
  induction fields as [|[k r] fields IH]; intros nm Hc; [done|].
  apply IH. by apply consistent_alter.
Qed.

Lemma consistent_tail kv enum nm : consistent (kv :: enum) nm → consistent enum nm.
Proof. intros Hc k known Hin. apply Hc. by right. Qed.

Lemma add_fields_app f1 f2 nm :
  add_fields (f1 ++ f2) nm = add_fields f2 (add_fields f1 nm).
Proof. apply foldl_app. Qed.

Lemma raw_of_insert_ne record key k v :
  key ≠ k → raw_of (<[key := v]> record) k = raw_of record k.
Proof. intros. unfold raw_of. by rewrite lookup_insert_ne. Qed.

Lemma fields_read_insert enum : ∀ record key v,
  key ∉ enum.*1 → fields_read enum (<[key := v]> record) = fields_read enum record.
Proof.
  induction enum as [|[k kn] enum IH]; intros record key v Hk; [done|].
  simpl in *. apply not_elem_of_cons in Hk as [Hne Hk].
  rewrite raw_of_insert_ne by done.
  destruct (raw_of record k); try done. by rewrite IH.
Qed.

Lemma well_typed_insert enum : ∀ record key v,
  key ∉ enum.*1 → well_typed enum (<[key := v]> record) = well_typed enum record.
Proof.
  induction enum as [|[k kn] enum IH]; intros record key v Hk; [done|].
  simpl in Hk. apply not_elem_of_cons in Hk as [Hne Hk].
  change (well_typed ((k, kn) :: enum) (<[key:=v]> record))
    with (is_str (raw_of (<[key:=v]> record) k)
          && well_typed enum (<[key:=v]> record)).
  by rewrite raw_of_insert_ne, IH.
Qed.

(** The loop over the categories, from a consistent state. *)
Lemma process_record_run enum : ∀ record nm,
  NoDup enum.*1 → consistent enum nm →
  process_record enum record nm =
  (if well_typed enum record then Ok (normalize_record enum record)
   else Raise AttributeError,
   add_fields (fields_read enum record) nm).
Proof.
  induction enum as [|[key known] enum IH]; intros record nm Hnd Hc; [done|].
  apply NoDup_cons in Hnd as [Hkey Hnd]. simpl in Hkey.
  destruct (Hc key known) as (labels & Hl & Hsub); [by left|].
  simpl. unfold bind. fold (raw_of record key).
  destruct (raw_of record key) as [raw| | | | |] eqn:Hraw; try done.
  rewrite (normalize_field_consistent _ _ _ _ _ Hl Hsub).
  rewrite IH; [|done|by apply consistent_alter, (consistent_tail (key, known))].
  rewrite well_typed_insert, fields_read_insert by done.
  simpl. unfold well_typed. done.
Qed.

Lemma normalize_record_other enum : ∀ record k,
  k ∉ enum.*1 → normalize_record enum record !! k = record !! k.
Proof.
  induction enum as [|[key known] enum IH]; intros record k Hk; [done|].
  simpl in *. apply not_elem_of_cons in Hk as [Hne Hk].
  destruct (raw_of record key); try done.
  rewrite IH by done. by rewrite lookup_insert_ne.
Qed.

Lemma normalize_record_field enum : ∀ record key raw,
  NoDup enum.*1 → key ∈ enum.*1 → well_typed enum record = true →
  raw_of record key = PStr raw →
  normalize_record enum record !! key = Some (PStr (canonical_text raw)).
Proof.
  induction enum as [|[k known] enum IH]; intros record key raw Hnd Hin Hwt Hraw.
  - by apply elem_of_nil in Hin.
  - apply NoDup_cons in Hnd as [Hk Hnd]. simpl in *.
    apply andb_true_iff in Hwt as [Hs Hwt].
    destruct (raw_of record k) as [r| | | | |] eqn:Hr; try done.
    destruct (decide (key = k)) as [->|Hne].
    + rewrite normalize_record_other by done.
      rewrite lookup_insert_eq. congruence.
    + apply elem_of_cons in Hin as [?|Hin]; [done|].
      apply IH; [done|done| |by rewrite raw_of_insert_ne].
      fold (well_typed enum record) in Hwt.
      by rewrite well_typed_insert.
Qed.

End LoopFacts.

(** ** What a run computes *)

Section RunFacts.
Import PyStr Normalizer Spec.

Lemma init_keys (enum : list (string * list string)) :
  ((λ kv : string * list string, (kv.1, list_to_set kv.2 : gset string)) <$> enum).*1
  = enum.*1.
Proof. rewrite <- list_fmap_compose. by apply list_fmap_ext. Qed.

Lemma init_lookup enum key known :
  NoDup enum.*1 → (key, known) ∈ enum →
  Vocabulary.init_normalize_map enum !! key = Some (list_to_set known).
Proof.
  intros Hnd Hin. unfold Vocabulary.init_normalize_map.
  apply elem_of_list_to_map_1; [by rewrite init_keys|].
  apply list_elem_of_fmap. by exists (key, known).
Qed.

Lemma init_lookup_None enum key :
  key ∉ enum.*1 → Vocabulary.init_normalize_map enum !! key = None.
Proof.
  intros Hk. unfold Vocabulary.init_normalize_map.
  apply not_elem_of_list_to_map_1. by rewrite init_keys.
Qed.

Lemma init_consistent enum :
  NoDup enum.*1 → consistent enum (Vocabulary.init_normalize_map enum).
Proof.
  intros Hnd key known Hin. exists (list_to_set known).
  split; [by apply init_lookup|done].
Qed.

Lemma process_pdf_run enum extracted nm :
  NoDup enum.*1 → consistent enum nm →
  process_pdf enum extracted nm =
  (outcome_of enum extracted, add_fields (fields_of enum extracted) nm).
Proof.
  intros Hnd Hc. destruct extracted as [[record|]|e]; simpl; try done.
  - unfold bind. rewrite process_record_run by done.
    by destruct (well_typed enum record).
  - by destruct enum.
Qed.

Lemma produced_outcome enum extract pdf :
  NoDup enum.*1 →
  produced enum extract pdf =
  match outcome_of enum (extract pdf) with
  | Ok (JObject rec) => Some (<["SourceFile" := PStr (basename pdf)]> rec)
  | _ => None
  end.
Proof.
  intros Hnd. unfold produced.
  by rewrite process_pdf_run by auto using init_consistent.
Qed.

Lemma reported_outcome enum extract pdf :
  NoDup enum.*1 →
  reported enum extract pdf =
  match outcome_of enum (extract pdf) with
  | Ok (JObject _) => None
  | Ok JNotObject => Some (pdf, TypeError)
  | Raise e => Some (pdf, e)
  end.
Proof.
  intros Hnd. unfold reported.
  by rewrite process_pdf_run by auto using init_consistent.
Qed.

(** The loop over the documents, from a consistent state. *)
Lemma collect_run enum extract pdfs : ∀ recs errs nm,
  NoDup enum.*1 → consistent enum nm →
  Agent.collect enum extract pdfs recs errs nm =
  (recs ++ omap (produced enum extract) pdfs,
   errs ++ omap (reported enum extract) pdfs,
   add_fields (mjoin ((λ pdf, fields_of enum (extract pdf)) <$> pdfs)) nm).
Proof.
  induction pdfs as [|pdf pdfs IH]; intros recs errs nm Hnd Hc.
  - simpl. by rewrite !app_nil_r.
  - simpl. rewrite process_pdf_run by done.
    rewrite produced_outcome, reported_outcome by done.
    rewrite add_fields_app.
    pose proof (consistent_add_fields enum (fields_of enum (extract pdf)) nm Hc).
    destruct (outcome_of enum (extract pdf)) as [[rec|]|e];
      rewrite IH by done; by rewrite <- ?app_assoc.
Qed.

(** What a category holds after some fields were normalised. *)
Lemma add_fields_lookup fields : ∀ nm key labels,
  nm !! key = Some labels →
  ∃ labels', add_fields fields nm !! key = Some labels' ∧
    ∀ l, l ∈ labels' ↔
         l ∈ labels ∨ ∃ raw, (key, raw) ∈ fields ∧ l ∈ labels_of raw.
Proof.
  induction fields as [|[k r] fields IH]; intros nm key labels Hkey.
  - exists labels. split; [done|]. intros l. split; [auto|].
    intros [?|(raw & Hin & _)]; [done|]. by apply elem_of_nil in Hin.
  - simpl. destruct (decide (k = key)) as [->|Hne].
    + edestruct (IH (alter (λ ls, labels_of r ∪ ls) key nm) key)
        as (labels' & Hl' & Hiff).
      { rewrite lookup_alter_eq, Hkey. done. }
      exists labels'. split; [done|]. intros l. rewrite Hiff, elem_of_union.
      split.
      * intros [[?|?]|(raw & Hin & Hl)]; [right; exists r|auto|right; exists raw].
        -- split; [by left|done].
        -- split; [by right|done].
      * intros [?|(raw & [Heq|Hin]%elem_of_cons & Hl)]; [auto| |eauto].
        injection Heq as ->. auto.
    + edestruct (IH (alter (λ ls, labels_of r ∪ ls) k nm) key)
        as (labels' & Hl' & Hiff).
      { rewrite lookup_alter_ne by done. exact Hkey. }
      exists labels'. split; [done|]. intros l. rewrite Hiff.
      split; (intros [?|(raw & Hin & Hl)]; [auto|right; exists raw]).
      * split; [by right|done].
      * apply elem_of_cons in Hin as [Heq|Hin]; [congruence|done].
Qed.

Lemma save_methods_lookup nm key :
  Vocabulary.save_methods nm !! key =
  (λ v, merge_sort String.le (elements v)) <$> nm !! key.
Proof. unfold Vocabulary.save_methods. apply lookup_fmap. Qed.

Lemma elem_of_sorted (v : gset string) l :
  l ∈ merge_sort String.le (elements v) ↔ l ∈ v.
Proof. by rewrite merge_sort_Permutation, elem_of_elements. Qed.

End RunFacts.

(** ** The label sets only grow *)

Section GrowFacts.
Import PyStr Normalizer Spec.

Lemma grows_refl nm : grows nm nm.
Proof. intros key. destruct (nm !! key); [|done]. split; [done|]. by intros. Qed.

Lemma grows_trans nm1 nm2 nm3 : grows nm1 nm2 → grows nm2 nm3 → grows nm1 nm3.
Proof.
  intros H12 H23 key. specialize (H12 key). specialize (H23 key).
  destruct (nm1 !! key) as [l1|], (nm2 !! key) as [l2|], (nm3 !! key) as [l3|];
    try done.
  destruct H12 as [S12 A12], H23 as [S23 A23]. split; [by etrans|].
  intros l Hl3 Hl1. destruct (decide (l ∈ l2)); [by apply A12|by apply A23].
Qed.

Lemma not_sentinel_admissible it :
  it ≠ "" → is_sentinel it = false → admissible it.
Proof.
  intros Hne Hs. split; [done|]. intros Hc%lower_casing.
  apply bool_decide_eq_false in Hs. by apply Hs.
Qed.

Lemma add_label_grows key it nm :
  admissible it → grows nm (add_label key it nm).2.
Proof.
  intros Hit. unfold add_label. destruct (nm !! key) as [labels|] eqn:Hkey.
  - simpl. intros k. rewrite lookup_insert. case_decide.
    + subst k. rewrite Hkey. split; [apply union_subseteq_r|].
      intros l [->%elem_of_singleton|?]%elem_of_union; done.
    + destruct (nm !! k); [|done]. split; [done|]. by intros.
  - apply grows_refl.
Qed.

Lemma normalize_items_grows key known items : ∀ acc nm,
  Forall (λ it, it ≠ "") items →
  grows nm (normalize_items key known items acc nm).2.
Proof.
  induction items as [|it rest IH]; intros acc nm Hne; [apply grows_refl|].
  apply Forall_cons in Hne as [Hit Hne]. simpl.
  destruct (is_sentinel it) eqn:Hs; [by apply IH|].
  destruct (bool_decide (it ∈ known)); [by apply IH|].
  unfold bind.
  pose proof (add_label_grows key it nm (not_sentinel_admissible _ Hit Hs)) as Hg.
  destruct (add_label key it nm) as [[[]|e] nm']; simpl in *; [|done].
  eapply grows_trans; [exact Hg|by apply IH].
Qed.

Lemma normalize_field_grows key known raw nm :
  grows nm (normalize_field key known raw nm).2.
Proof.
  destruct raw as [s| | | | |]; try apply grows_refl.
  assert (Forall (λ it, it ≠ "") (items_of s)) as Hne.
  { eapply Forall_impl; [apply items_of_clean|]. by intros it (_ & ? & _). }
  simpl. unfold bind.
  pose proof (normalize_items_grows key known (items_of s) [] nm Hne) as Hg.
  by destruct (normalize_items key known (items_of s) [] nm) as [[l|e] nm'].
Qed.

Lemma process_record_grows enum : ∀ record nm,
  grows nm (process_record enum record nm).2.
Proof.
  induction enum as [|[key known] enum IH]; intros record nm;
    [apply grows_refl|].
  simpl. unfold bind.
  pose proof (normalize_field_grows key known
                (default (PStr sentinel) (record !! key)) nm) as Hg.
  destruct (normalize_field key known _ nm) as [[text|e] nm']; simpl in *;
    [|done].
  eapply grows_trans; [exact Hg|apply IH].
Qed.

Lemma process_pdf_grows enum extracted nm :
  grows nm (process_pdf enum extracted nm).2.
Proof.
  destruct extracted as [[record|]|e]; simpl; try apply grows_refl.
  - unfold bind. pose proof (process_record_grows enum record nm) as Hg.
    by destruct (process_record enum record nm) as [[r|e] nm'].
  - destruct enum; apply grows_refl.
Qed.

Lemma collect_grows enum extract pdfs : ∀ recs errs nm,
  grows nm (Agent.collect enum extract pdfs recs errs nm).2.
Proof.
  induction pdfs as [|pdf pdfs IH]; intros recs errs nm; [apply grows_refl|].
  simpl. pose proof (process_pdf_grows enum (extract pdf) nm) as Hg.
  destruct (process_pdf enum (extract pdf) nm) as [[[rec|]|e] nm'];
    simpl in Hg; (eapply grows_trans; [exact Hg|apply IH]).
Qed.

End GrowFacts.

(** ** The merge *)

Section MergeFacts.
Import Merger.

Lemma select_fmap (rows : list (gmap string pyval)) (f : gmap string pyval → bool) :
  fst <$> filter (λ rm, rm.2 = true) (zip rows (f <$> rows))
  = filter (λ row, f row = true) rows.
Proof.
  induction rows as [|row rows IH]; [done|].
  rewrite fmap_cons. simpl zip. destruct (f row) eqn:Hf.
  - rewrite !filter_cons_True by done. rewrite fmap_cons. simpl.
    by rewrite IH.
  - rewrite !filter_cons_False; [done| |]; simpl; congruence.
Qed.

Lemma merge_run df_existing new_records :
  "SourceFile" ∈ df_columns df_existing ∨ df_rows df_existing = [] →
  (∃ r, r ∈ new_records ∧ is_Some (r !! "SourceFile")) →
  merge df_existing new_records =
  Ok (mkDF (df_columns df_existing ∪ ⋃ (dom <$> new_records))
        (filter (λ row, row !! "SourceFile"
                        ∉ (λ r, r !! "SourceFile") <$> new_records)
                (df_rows df_existing)
         ++ new_records)).
Proof.
  intros Hcol (r & Hr & Hsf). destruct df_existing as [cols rows].
  simpl in *. unfold merge. destruct (empty (mkDF cols rows)) eqn:He; simpl.
  - unfold concat. simpl. do 2 f_equal.
    unfold empty in He. simpl in He.
    apply orb_true_iff in He as [He|He]; apply bool_decide_eq_true in He.
    + destruct Hcol as [Hcol| ->]; [|done]. rewrite He in Hcol.
      by apply not_elem_of_empty in Hcol.
    + by subst rows.
  - destruct Hcol as [Hcol| ->].
    2:{ unfold empty in He. simpl in He. by rewrite orb_true_r in He. }
    unfold getitem. simpl. rewrite decide_True by done.
    rewrite decide_True.
    2:{ apply elem_of_union_list. exists (dom r). split.
        - apply list_elem_of_fmap. by exists r.
        - by apply elem_of_dom. }
    unfold concat, select, eq_False, isin. simpl. f_equal.
    rewrite <- !list_fmap_compose. rewrite select_fmap.
    apply (f_equal (mkDF _)), (f_equal (λ l, l ++ new_records)).
    apply list_filter_iff. intros row. simpl.
    rewrite negb_true_iff, bool_decide_eq_false. done.
Qed.

Lemma merge_first_run new_records :
  merge no_frame new_records = Ok (from_records new_records).
Proof.
  assert (empty no_frame = true) as He.
  { unfold empty. simpl. by rewrite bool_decide_eq_true_2. }
  unfold merge. rewrite He. simpl. unfold concat, from_records. simpl.
  by rewrite (left_id_L ∅ (∪)).
Qed.

(** With nothing new and a table that has rows, line 166 looks up a
    column the frame of the new records does not have. *)
Lemma merge_nothing_new df_existing :
  empty df_existing = false →
  "SourceFile" ∈ df_columns df_existing →
  merge df_existing [] = Raise (KeyError "SourceFile").
Proof.
  intros He Hcol. unfold merge. rewrite He. simpl.
  unfold getitem. rewrite decide_True by done. simpl.
  rewrite decide_False; [done|]. apply not_elem_of_empty.
Qed.

End MergeFacts.

(** ** The merge of new records into the table *)

Section MergeClaims.
Import Merger.

(** C1.  For an existing table that has the [SourceFile] column (or no
    rows) and a non-empty batch of new records, each carrying the file
    name line 150 gives it, [merge] succeeds and its rows are the
    existing rows whose [SourceFile] cell is not the [SourceFile] of a
    new record, in their order, followed by the new records in their
    order.  In particular, with existing rows for A and B and one new
    record for A, the result is B's row followed by the new record. *)
Theorem merge_replaces (df_existing : DataFrame)
    (new_records : list (gmap string pyval)) :
  new_records ≠ [] →
  (∀ r, r ∈ new_records → ∃ s, r !! "SourceFile" = Some (PStr s)) →
  "SourceFile" ∈ df_columns df_existing ∨ df_rows df_existing = [] →
  ∃ merged,
    merge df_existing new_records = Ok merged ∧
    df_rows merged =
      filter (λ row, row !! "SourceFile"
                     ∉ (λ r, r !! "SourceFile") <$> new_records)
             (df_rows df_existing)
      ++ new_records ∧
    ∀ rowA rowB newA A B,
      df_rows df_existing = [rowA; rowB] → new_records = [newA] →
      rowA !! "SourceFile" = Some (PStr A) →
      rowB !! "SourceFile" = Some (PStr B) →
      newA !! "SourceFile" = Some (PStr A) → A ≠ B →
      df_rows merged = [rowB; newA].
Proof.
  intros Hne Hids Hcol.
  assert (∃ r, r ∈ new_records ∧ is_Some (r !! "SourceFile")) as Hsome.
  { destruct new_records as [|r rs]; [done|]. exists r.
    split; [by left|]. destruct (Hids r) as [s Hs]; [by left|].
    by rewrite Hs. }
  eexists. split; [by apply merge_run|]. split; [done|].
  intros rowA rowB newA A B -> -> HA HB HN HAB. simpl.
  rewrite filter_cons_False.
  2:{ intros Hnot. apply Hnot. rewrite HA, HN. by left. }
  rewrite filter_cons_True; [done|].
  rewrite HB, HN. intros [Heq|Hin]%elem_of_cons; [|by apply elem_of_nil in Hin].
  congruence.
Qed.

Lemma merge_replaces_witness :
  ∃ merged,
    merge (mkDF {["SourceFile"; "Clustering"]}
             [ {["SourceFile" := PStr "a.pdf"; "Clustering" := PStr "LDA"]};
               {["SourceFile" := PStr "b.pdf"; "Clustering" := PStr "CorEx"]} ])
          [ {["SourceFile" := PStr "a.pdf"; "Clustering" := PStr "BERTopic"]} ]
    = Ok merged ∧
    df_rows merged =
      [ {["SourceFile" := PStr "b.pdf"; "Clustering" := PStr "CorEx"]};
        {["SourceFile" := PStr "a.pdf"; "Clustering" := PStr "BERTopic"]} ].
Proof.
  destruct (merge_replaces
    (mkDF {["SourceFile"; "Clustering"]}
       [ {["SourceFile" := PStr "a.pdf"; "Clustering" := PStr "LDA"]};
         {["SourceFile" := PStr "b.pdf"; "Clustering" := PStr "CorEx"]} ])
    [ {["SourceFile" := PStr "a.pdf"; "Clustering" := PStr "BERTopic"]} ])
    as (merged & Hm & _ & HAB).
  - discriminate.
  - intros r Hr. apply list_elem_of_singleton in Hr. subst r.
    exists "a.pdf". reflexivity.
  - left. simpl. apply elem_of_union. left. apply elem_of_singleton.
    reflexivity.
  - exists merged. split; [exact Hm|].
    eapply (HAB _ _ _ "a.pdf" "b.pdf"); reflexivity || discriminate.
Defined.

(** C2 (the code departs from it).  With an existing table of one row
    and no new record, line 166 raises [KeyError]: the frame built from
    an empty list has no [SourceFile] column.  So does the run in which
    the only document fails, before anything is written. *)
Theorem merge_empty_batch_raises :
  let existing :=
    mkDF {["SourceFile"]} [ {["SourceFile" := PStr "a.pdf"]} ] in
  merge existing [] = Raise (KeyError "SourceFile") ∧
  ∀ to_excel,
    Agent.outcome
      (Agent.main Vocabulary.default_methods
         (λ _, Raise (RuntimeError "PDF read error")) to_excel ["a.pdf"]
         (Some existing))
    = Raise (KeyError "SourceFile").
Proof.
  simpl.
  assert (merge (mkDF {["SourceFile"]} [ {["SourceFile" := PStr "a.pdf"]} ]) []
          = Raise (KeyError "SourceFile")) as Hm.
  { apply merge_nothing_new.
    - unfold empty. simpl. rewrite bool_decide_eq_false_2; [done|].
      intros Heq. assert ("SourceFile" ∈ (∅ : gset string)) as Hin.
      { rewrite <- Heq. by apply elem_of_singleton. }
      by apply not_elem_of_empty in Hin.
    - simpl. by apply elem_of_singleton. }
  split; [exact Hm|]. intros to_excel. unfold Agent.main. simpl.
  by rewrite Hm.
Qed.

(** With no existing row, an empty batch leaves the table as it is. *)
Lemma merge_empty_batch_of_empty (df_existing : DataFrame) :
  empty df_existing = true → merge df_existing [] = Ok df_existing.
Proof.
  intros He. unfold merge. rewrite He. simpl. unfold concat. simpl.
  destruct df_existing as [cols rows]. simpl.
  by rewrite (right_id_L ∅ (∪)), app_nil_r.
Qed.

End MergeClaims.

(** ** The normaliser *)

Section NormalizerClaims.
Import PyStr Normalizer Spec.

Lemma default_methods_NoDup : NoDup Vocabulary.default_methods.*1.
Proof. apply (bool_decide_unpack _). by vm_compute. Qed.

(** C3 as it is written does not hold: an item that is a casing of the
    sentinel is not rejoined as it stands.  The field "not specified"
    becomes "Not specified". *)
Lemma rejoin_counterexample :
  ¬ (∀ enum record nm record' nm' key raw,
       process_record enum record nm = (Ok record', nm') →
       key ∈ enum.*1 → raw_of record key = PStr raw →
       record' !! key = Some (PStr (rejoined_text raw))).
Proof.
  intros H.
  assert (process_record Vocabulary.default_methods
            {["Clustering" := PStr "not specified"]}
            (Vocabulary.init_normalize_map Vocabulary.default_methods)
          = (Ok {["AnalyzedFields" := PStr "Not specified";
                  "TermPreprocessing" := PStr "Not specified";
                  "Clustering" := PStr "Not specified";
                  "ClusterAnalysis" := PStr "Not specified"]},
             Vocabulary.init_normalize_map Vocabulary.default_methods)) as E.
  { by vm_compute. }
  specialize (H _ _ _ _ _ "Clustering" "not specified" E).
  assert ("Clustering" ∈ Vocabulary.default_methods.*1) as Hin.
  { simpl. set_solver. }
  specialize (H Hin eq_refl). vm_compute in H. discriminate H.
Qed.

(** C3, amended.  From a state that has every category, and for a
    record whose category fields are text or missing, the loop of
    [process_pdf] succeeds and leaves in every category field the
    canonical text of what was there ("Not specified" standing in for a
    missing field): the pieces between semicolons, trimmed, the empty
    ones dropped, each casing of the sentinel replaced by "Not
    specified", in order and with repetitions, joined by "; ", or "Not
    specified" when nothing is left, as for "  ; ;  ". *)
Theorem normalize_replaces_fields (enum : list (string * list string))
    (record : gmap string pyval) (nm : gmap string (gset string)) :
  NoDup enum.*1 → consistent enum nm → well_typed enum record = true →
  ∃ record' nm',
    process_record enum record nm = (Ok record', nm') ∧
    (∀ key, key ∈ enum.*1 →
       ∃ raw, default (PStr "Not specified") (record !! key) = PStr raw ∧
         record' !! key =
         Some (PStr (match canon <$> filter (λ i, i ≠ "")
                                       (strip <$> split ";" raw) with
                     | [] => "Not specified"
                     | items => join "; " items
                     end))) ∧
    canonical_text "  ; ;  " = "Not specified".
Proof.
  intros Hnd Hc Hwt. rewrite process_record_run, Hwt by done.
  do 2 eexists. split; [done|]. split; [|done].
  intros key Hkey.
  assert (∃ raw, raw_of record key = PStr raw) as [raw Hraw].
  { unfold well_typed in Hwt. rewrite forallb_forall in Hwt.
    apply list_elem_of_fmap in Hkey as ([k kn] & -> & Hin).
    apply list_elem_of_In, Hwt in Hin. simpl in *.
    destruct (raw_of record k); try done.
    by eexists. }
  exists raw. split; [exact Hraw|].
  by apply normalize_record_field.
Qed.

Lemma normalize_replaces_fields_witness :
  ∃ record' nm',
    process_record Vocabulary.default_methods
      {["Document" := PStr "A study"; "Clustering" := PStr " LDA ;; not SPECIFIED; LDA "]}
      (Vocabulary.init_normalize_map Vocabulary.default_methods)
    = (Ok record', nm') ∧
    record' !! "Clustering" = Some (PStr "LDA; Not specified; LDA") ∧
    record' !! "AnalyzedFields" = Some (PStr "Not specified").
Proof.
  destruct (normalize_replaces_fields Vocabulary.default_methods
    {["Document" := PStr "A study"; "Clustering" := PStr " LDA ;; not SPECIFIED; LDA "]}
    (Vocabulary.init_normalize_map Vocabulary.default_methods))
    as (record' & nm' & Hrun & Hfields & _).
  - exact default_methods_NoDup.
  - exact (init_consistent _ default_methods_NoDup).
  - reflexivity.
  - exists record', nm'. split; [exact Hrun|]. split.
    + destruct (Hfields "Clustering") as (raw & Hraw & Hout).
      { vm_compute. set_solver. }
      vm_compute in Hraw. injection Hraw as <-. exact Hout.
    + destruct (Hfields "AnalyzedFields") as (raw & Hraw & Hout).
      { vm_compute. set_solver. }
      vm_compute in Hraw. injection Hraw as <-. exact Hout.
Defined.

(** C5.  In a state of the run (the category has its live set, which
    holds the loaded labels), the loop over the items emits one output
    item per input item: "Not specified" for an item whose lower-case
    form is "not specified", the item itself otherwise; and the live
    set afterwards holds what it held and every item but those
    sentinels, nothing else. *)
Theorem sentinel_and_verbatim (key : string) (known items : list string)
    (nm : gmap string (gset string)) (labels : gset string) :
  nm !! key = Some labels → list_to_set known ⊆ labels →
  ∃ normalized labels',
    normalize_items key known items [] nm
    = (Ok normalized, <[key := labels']> nm) ∧
    length normalized = length items ∧
    (∀ i it, items !! i = Some it →
       normalized !! i =
       Some (if bool_decide (lower it = "not specified")
             then "Not specified" else it)) ∧
    (∀ l, l ∈ labels' ↔
          l ∈ labels ∨ (l ∈ items ∧ lower l ≠ "not specified")).
Proof.
  intros Hkey Hsub. rewrite (normalize_items_run _ _ _ _ _ _ Hkey).
  rewrite guard_absorbed by done. do 2 eexists. split; [done|].
  split; [simpl; by rewrite length_fmap|]. split.
  - intros i it Hi. simpl. rewrite list_lookup_fmap, Hi. done.
  - intros l. rewrite elem_of_union, elem_of_list_to_set, list_elem_of_filter.
    unfold is_sentinel. rewrite bool_decide_eq_false. tauto.
Qed.

Lemma sentinel_and_verbatim_witness :
  ∃ normalized labels',
    normalize_items "Clustering" ["LDA"] ["NOT Specified"; "lda"; "LDA"] []
      {["Clustering" := {["LDA"]}]}
    = (Ok normalized, <["Clustering" := labels']> {["Clustering" := {["LDA"]}]}) ∧
    normalized = ["Not specified"; "lda"; "LDA"] ∧
    "lda" ∈ labels' ∧ "NOT Specified" ∉ labels'.
Proof.
  destruct (sentinel_and_verbatim "Clustering" ["LDA"]
              ["NOT Specified"; "lda"; "LDA"]
              {["Clustering" := {["LDA"]}]} {["LDA"]})
    as (normalized & labels' & Hrun & Hlen & Hitems & Hlabels).
  - reflexivity.
  - intros l Hl. exact Hl.
  - exists normalized, labels'. split; [exact Hrun|]. split; [|split].
    + destruct normalized as [|a [|b [|c [|]]]]; try discriminate Hlen.
      pose proof (Hitems 0 _ eq_refl) as H0.
      pose proof (Hitems 1 _ eq_refl) as H1.
      pose proof (Hitems 2 _ eq_refl) as H2.
      vm_compute in H0, H1, H2.
      injection H0 as ->. injection H1 as ->. injection H2 as ->. reflexivity.
    + apply Hlabels. right. split.
      * apply elem_of_cons. right. apply elem_of_cons. left. reflexivity.
      * vm_compute. discriminate.
    + intros [Hin|[_ Hlow]]%Hlabels.
      * apply elem_of_singleton in Hin. discriminate Hin.
      * apply Hlow. reflexivity.
Defined.

(** Canonical items filter alike before and after [canon]. *)
Lemma filter_canon (Q : string → Prop) `{!∀ x, Decision (Q x)} (l : list string) :
  filter (λ it, is_sentinel it = false ∧ Q it) (canon <$> l)
  = filter (λ it, is_sentinel it = false ∧ Q it) l.
Proof.
  induction l as [|y m IH]; [done|].
  rewrite fmap_cons. destruct (is_sentinel y) eqn:Hy.
  - rewrite !filter_cons_False; [done| |].
    + intros [? _]. congruence.
    + rewrite canon_sentinel. intros [? _]. congruence.
  - unfold canon at 1. rewrite Hy.
    destruct (decide (Q y)).
    + rewrite !filter_cons_True by done. by rewrite IH.
    + rewrite !filter_cons_False by tauto. done.
Qed.

Lemma canonical_text_single item :
  clean item → is_sentinel item = false → canonical_text item = item.
Proof.
  intros (Hstrip & Hne & Hsemi) Hs. unfold canonical_text, items_of.
  rewrite split_only by done. simpl. rewrite Hstrip.
  rewrite filter_cons_True by done. simpl. unfold canon. by rewrite Hs.
Qed.

(** C8.  From a state in which the category has its live set: a field
    that is one trimmed, non-empty item without a semicolon and not a
    casing of the sentinel is returned as it is; and normalising the
    text a normalisation returned gives that text again, and adds no
    label. *)
Theorem normalize_idempotent (key : string) (known : list string)
    (nm : gmap string (gset string)) (labels : gset string) :
  nm !! key = Some labels →
  (∀ item, strip item = item → item ≠ "" → contains ";" item = false →
           lower item ≠ "not specified" →
     ∃ nm', normalize_field key known (PStr item) nm = (Ok item, nm')) ∧
  (∀ raw, ∃ text nm',
     normalize_field key known (PStr raw) nm = (Ok text, nm') ∧
     normalize_field key known (PStr text) nm' = (Ok text, nm')).
Proof.
  intros Hkey. split.
  - intros item Hstrip Hne Hsemi Hlow.
    rewrite (normalize_field_run _ _ _ _ _ Hkey).
    rewrite canonical_text_single; [by eexists|done|].
    unfold is_sentinel. by apply bool_decide_eq_false.
  - intros raw. rewrite (normalize_field_run _ _ _ _ _ Hkey).
    do 2 eexists. split; [done|].
    erewrite normalize_field_run by apply lookup_insert_eq.
    rewrite canonical_text_idem, insert_insert_eq. do 2 f_equal.
    rewrite items_of_canonical_text.
    destruct (items_of raw) as [|x l].
    + rewrite filter_cons_False.
      * apply set_eq. intros it. rewrite !elem_of_union. tauto.
      * intros [Hs _]. vm_compute in Hs. discriminate Hs.
    + rewrite filter_canon. apply set_eq. intros it.
      rewrite !elem_of_union. tauto.
Qed.

Lemma normalize_idempotent_witness :
  (∃ nm', normalize_field "Clustering" [] (PStr "Latent Dirichlet Allocation (LDA)")
            {["Clustering" := ∅]}
          = (Ok "Latent Dirichlet Allocation (LDA)", nm')) ∧
  (∃ text nm',
     normalize_field "Clustering" [] (PStr " LDA ;not specified;; DTM ")
       {["Clustering" := ∅]} = (Ok text, nm') ∧
     normalize_field "Clustering" [] (PStr text) nm' = (Ok text, nm')).
Proof.
  destruct (normalize_idempotent "Clustering" [] {["Clustering" := ∅]} ∅)
    as [Hone Htwice].
  - reflexivity.
  - split.
    + apply Hone; [reflexivity|discriminate|reflexivity|].
      vm_compute. discriminate.
    + apply Htwice.
Defined.

(** C9.  With the four categories as the keys of [enum_methods], from a
    state of the run and for a record whose category fields are text or
    missing, the loop of [process_pdf] succeeds whatever other keys the
    record has, and every field under another key is in the result as
    it was in the record. *)
Theorem normalize_frame (enum : list (string * list string))
    (record : gmap string pyval) (nm : gmap string (gset string)) :
  NoDup enum.*1 → consistent enum nm →
  (∀ key, key ∈ enum.*1 ↔ key ∈ categories) →
  well_typed enum record = true →
  ∃ record' nm',
    process_record enum record nm = (Ok record', nm') ∧
    ∀ k, k ∉ categories → record' !! k = record !! k.
Proof.
  intros Hnd Hc Hkeys Hwt. rewrite process_record_run, Hwt by done.
  do 2 eexists. split; [done|]. intros k Hk.
  apply normalize_record_other. by rewrite Hkeys.
Qed.

Lemma normalize_frame_witness :
  ∃ record' nm',
    process_record Vocabulary.default_methods
      {["Document" := PStr "  A study ; of topics "; "PaperCount" := PNum "45";
        "Software" := PList "[VOSviewer]"; "Clustering" := PStr "LDA"]}
      (Vocabulary.init_normalize_map Vocabulary.default_methods)
    = (Ok record', nm') ∧
    record' !! "Document" = Some (PStr "  A study ; of topics ") ∧
    record' !! "PaperCount" = Some (PNum "45") ∧
    record' !! "Software" = Some (PList "[VOSviewer]").
Proof.
  destruct (normalize_frame Vocabulary.default_methods
    {["Document" := PStr "  A study ; of topics "; "PaperCount" := PNum "45";
      "Software" := PList "[VOSviewer]"; "Clustering" := PStr "LDA"]}
    (Vocabulary.init_normalize_map Vocabulary.default_methods))
    as (record' & nm' & Hrun & Hframe).
  - exact default_methods_NoDup.
  - exact (init_consistent _ default_methods_NoDup).
  - intros key. reflexivity.
  - reflexivity.
  - exists record', nm'. split; [exact Hrun|].
    assert (∀ k, bool_decide (k ∈ categories) = false → k ∉ categories) as Hn.
    { intros k Hk. by apply bool_decide_eq_false in Hk. }
    rewrite !Hframe by (apply Hn; vm_compute; reflexivity).
    repeat split; reflexivity.
Defined.

End NormalizerClaims.

(** ** The run: vocabulary and failures *)

Section RunClaims.
Import PyStr Normalizer Spec Merger.

Lemma grows_lookup nm nm' key labels :
  grows nm nm' → nm !! key = Some labels →
  ∃ labels', nm' !! key = Some labels' ∧ labels ⊆ labels' ∧
    ∀ l, l ∈ labels' → l ∉ labels → l ≠ "" ∧ ¬ casing l "Not specified".
Proof.
  intros Hg Hkey. specialize (Hg key). rewrite Hkey in Hg.
  destruct (nm' !! key) as [labels'|]; [|done].
  exists labels'. destruct Hg as [Hsub Hadm]. split; [done|]. split; [done|].
  intros l Hl Hnl. exact (Hadm l Hl Hnl).
Qed.

(** C4.  Whatever the documents, their extraction outcomes and the
    state the loop of [main] starts from, a category's label set after
    the loop contains the set before it, and a label it gained is
    neither empty nor "Not specified" in any casing. *)
Theorem vocabulary_monotone (enum : list (string * list string))
    (extract : string → result json) (pdfs : list string)
    (recs : list (gmap string pyval)) (errs : list (string * exn))
    (nm : gmap string (gset string)) (key : string) (labels : gset string) :
  nm !! key = Some labels →
  ∃ labels',
    (Agent.collect enum extract pdfs recs errs nm).2 !! key = Some labels' ∧
    labels ⊆ labels' ∧
    ∀ l, l ∈ labels' → l ∉ labels → l ≠ "" ∧ ¬ casing l "Not specified".
Proof. apply grows_lookup, collect_grows. Qed.

Lemma vocabulary_monotone_witness :
  ∃ labels',
    (Agent.collect Vocabulary.default_methods
       (λ _, Ok (JObject {["Clustering" := PStr "NOT SPECIFIED; ;LDA"]}))
       ["a.pdf"] [] []
       {["Clustering" := {["DTM"]}]}).2 !! "Clustering" = Some labels' ∧
    {["DTM"]} ⊆ labels' ∧
    ∀ l, l ∈ labels' → l ∉ ({["DTM"]} : gset string) →
         l ≠ "" ∧ ¬ casing l "Not specified".
Proof.
  apply (vocabulary_monotone Vocabulary.default_methods
           (λ _, Ok (JObject {["Clustering" := PStr "NOT SPECIFIED; ;LDA"]}))
           ["a.pdf"] [] [] {["Clustering" := {["DTM"]}]} "Clustering" {["DTM"]}).
  reflexivity.
Defined.

(** C7.  With no [topic_methods.json], loading succeeds, the keys are
    the four categories, and [normalize_map] starts with exactly these
    keys, each with the empty set. *)
Theorem load_missing_file :
  ∃ enum,
    Vocabulary.load Vocabulary.NoFile = Ok enum ∧
    enum.*1 = categories ∧
    ∀ key, Vocabulary.init_normalize_map enum !! key
           = if bool_decide (key ∈ categories) then Some ∅ else None.
Proof.
  exists Vocabulary.default_methods. split; [done|]. split; [done|].
  intros key. case_bool_decide as Hk.
  - unfold categories in Hk. rewrite !elem_of_cons in Hk.
    destruct Hk as [->|[->|[->|[->|Hk]]]]; try done.
    by apply elem_of_nil in Hk.
  - by apply init_lookup_None.
Qed.

Lemma produced_source_file enum extract pdf rec :
  produced enum extract pdf = Some rec →
  rec !! "SourceFile" = Some (PStr (basename pdf)).
Proof.
  unfold produced.
  destruct (process_pdf _ _ _) as [[[r|]|e] nm]; try done.
  intros [= <-]. apply lookup_insert_eq.
Qed.

Lemma failed_reported enum extract pdf :
  NoDup enum.*1 → produced enum extract pdf = None →
  ∃ e, reported enum extract pdf = Some (pdf, e).
Proof.
  intros Hnd. rewrite produced_outcome, reported_outcome by done.
  destruct (outcome_of enum (extract pdf)) as [[r|]|e]; [done|eauto..].
Qed.

Lemma main_run enum extract to_excel pdfs excel :
  NoDup enum.*1 →
  Agent.main enum extract to_excel pdfs excel =
  match merge (default no_frame excel) (omap (produced enum extract) pdfs) with
  | Raise e => Agent.mkRun (omap (reported enum extract) pdfs) None (Raise e)
  | Ok df_merged =>
      Agent.mkRun (omap (reported enum extract) pdfs) (Some df_merged)
        match to_excel df_merged with
        | Raise e => Raise e
        | Ok _ =>
            Ok (df_merged,
                Vocabulary.save_methods
                  (add_fields
                     (mjoin ((λ pdf, fields_of enum (extract pdf)) <$> pdfs))
                     (Vocabulary.init_normalize_map enum)))
        end
  end.
Proof.
  intros Hnd. unfold Agent.main.
  by rewrite collect_run by auto using init_consistent.
Qed.

Lemma select_rows df column values :
  df_rows (select df (eq_False (isin ((λ row, row !! column) <$> df_rows df) values)))
  = filter (λ row, row !! column ∉ values) (df_rows df).
Proof.
  unfold select, eq_False, isin. simpl.
  rewrite <- !list_fmap_compose, select_fmap.
  apply list_filter_iff. intros row. simpl.
  by rewrite negb_true_iff, bool_decide_eq_false.
Qed.

(** A row whose file name is not among the new ones is kept. *)
Lemma merge_keeps df new_records merged row :
  merge df new_records = Ok merged →
  row ∈ df_rows df →
  row !! "SourceFile" ∉ (λ r, r !! "SourceFile") <$> new_records →
  row ∈ df_rows merged.
Proof.
  unfold merge. destruct (empty df); simpl.
  - intros [= <-] Hrow _. simpl. apply elem_of_app. by left.
  - unfold getitem. destruct (decide _); [|done].
    simpl. destruct (decide _); [|done].
    intros [= <-] Hrow Hid. simpl. apply elem_of_app. left.
    change (row ∈ df_rows (select df (eq_False (isin
              ((λ r, r !! "SourceFile") <$> df_rows df)
              ((λ r, r !! "SourceFile") <$> new_records))))).
    rewrite select_rows. by apply list_elem_of_filter.
Qed.

(** C6.  Let X be a document of the batch that yields no record, and let
    no document that yields one have X's file name.  Then X is reported
    on [stderr].  If a document of the batch yields a record, the merge
    succeeds and the frame handed to [to_excel] is the kept existing
    rows followed by the records of exactly the documents that yield
    one, in order; the run ends well if [to_excel] returns on that frame
    and with the writer's exception if it raises.  An existing row for
    X's file name is in every frame handed to [to_excel], as it was, and
    the file holds it after the run, unless [to_excel] raised while
    rewriting the file. *)
Theorem failure_isolation (enum : list (string * list string))
    (extract : string → result json) (to_excel : DataFrame → result unit)
    (pdfs : list string) (excel : option DataFrame) (X : string) :
  NoDup enum.*1 →
  X ∈ pdfs → produced enum extract X = None →
  (∀ Y, Y ∈ pdfs → is_Some (produced enum extract Y) → basename Y ≠ basename X) →
  (∀ df, excel = Some df → "SourceFile" ∈ df_columns df ∨ df_rows df = []) →
  let r := Agent.main enum extract to_excel pdfs excel in
  (∃ e, (X, e) ∈ Agent.stderr r) ∧
  (∀ Y rec, Y ∈ pdfs → produced enum extract Y = Some rec →
     ∃ merged,
       Agent.handed r = Some merged ∧
       df_rows merged =
         filter (λ row, row !! "SourceFile" ∉
                        (λ r, r !! "SourceFile") <$> omap (produced enum extract) pdfs)
                (df_rows (default no_frame excel))
         ++ omap (produced enum extract) pdfs ∧
       rec ∈ df_rows merged ∧
       match to_excel merged with
       | Ok _ => ∃ saved, Agent.outcome r = Ok (merged, saved)
       | Raise e => Agent.outcome r = Raise e
       end) ∧
  (∀ df row, excel = Some df → row ∈ df_rows df →
     row !! "SourceFile" = Some (PStr (basename X)) →
     (∀ merged, Agent.handed r = Some merged → row ∈ df_rows merged) ∧
     ((∃ df', Agent.excel_after excel r = Agent.Holds (Some df') ∧
              row ∈ df_rows df') ∨
      (Agent.excel_after excel r = Agent.Damaged ∧
       ∃ merged e, Agent.handed r = Some merged ∧
                   to_excel merged = Raise e))).
Proof.
  intros Hnd HX Hfail Hnames Hexcel r. subst r. rewrite main_run by done.
  split; [|split].
  - destruct (failed_reported enum extract X Hnd Hfail) as [e He].
    exists e. destruct (merge _ _); simpl; apply list_elem_of_omap; by exists X.
  - intros Y rec HY Hrec.
    assert (rec ∈ omap (produced enum extract) pdfs) as Hin.
    { apply list_elem_of_omap. by exists Y. }
    rewrite merge_run.
    + simpl. eexists. split; [done|]. split; [done|]. split.
      * simpl. apply elem_of_app. by right.
      * destruct (to_excel _); [by eexists|done].
    + destruct excel as [df|]; [by apply Hexcel|by right].
    + exists rec. split; [done|].
      by rewrite (produced_source_file _ _ _ _ Hrec).
  - intros df row -> Hrow Hid.
    assert (∀ merged, merge df (omap (produced enum extract) pdfs) = Ok merged →
                      row ∈ df_rows merged) as Hkeep.
    { intros merged Hm. eapply merge_keeps; [exact Hm|done|].
      rewrite Hid. intros (rec & Hsf & Hin)%list_elem_of_fmap.
      apply list_elem_of_omap in Hin as (Y & HY & Hrec).
      rewrite (produced_source_file _ _ _ _ Hrec) in Hsf.
      injection Hsf as Hsf. by eapply (Hnames Y); [|rewrite Hrec|]. }
    change (default no_frame (Some df)) with df.
    destruct (merge df (omap (produced enum extract) pdfs)) as [merged|e] eqn:Hm.
    + split.
      * simpl. intros m [= <-]. by apply Hkeep.
      * unfold Agent.excel_after. simpl.
        destruct (to_excel merged) as [u|e] eqn:Hw.
        -- left. exists merged. split; [done|]. by apply Hkeep.
        -- right. split; [done|]. by exists merged, e.
    + split; [done|]. left. by exists df.
Qed.

Lemma failure_isolation_witness :
  let extract := λ pdf : string,
    if decide (pdf = "in/a.pdf") then Raise (RuntimeError "PDF read error")
    else Ok (JObject {["Clustering" := PStr "LDA"]}) in
  let to_excel := λ _ : DataFrame, Ok () in
  let old := {["SourceFile" := PStr "a.pdf"; "Clustering" := PStr "DTM"]} in
  let excel := Some (mkDF {["SourceFile"; "Clustering"]} [old]) in
  let r := Agent.main Vocabulary.default_methods extract to_excel
             ["in/a.pdf"; "in/b.pdf"] excel in
  (∃ e, ("in/a.pdf", e) ∈ Agent.stderr r) ∧
  (∃ merged, Agent.handed r = Some merged ∧
     length (df_rows merged) = 2 ∧
     ∃ saved, Agent.outcome r = Ok (merged, saved)) ∧
  (∃ df', Agent.excel_after excel r = Agent.Holds (Some df') ∧
          old ∈ df_rows df').
Proof.
  intros extract to_excel old excel r.
  destruct (failure_isolation Vocabulary.default_methods extract to_excel
              ["in/a.pdf"; "in/b.pdf"] excel "in/a.pdf")
    as (Herr & Hok & Hold).
  - exact default_methods_NoDup.
  - apply elem_of_cons. left. reflexivity.
  - reflexivity.
  - intros Y HY Hsome. apply elem_of_cons in HY as [->|HY].
    + destruct Hsome as [rec Hrec]. discriminate Hrec.
    + apply list_elem_of_singleton in HY. subst Y. vm_compute. discriminate.
  - intros df Hdf. injection Hdf as <-. left. simpl.
    apply elem_of_union. left. apply elem_of_singleton. reflexivity.
  - split; [exact Herr|]. split.
    + destruct (Hok "in/b.pdf"
                  (<["SourceFile" := PStr "b.pdf"]>
                     (normalize_record Vocabulary.default_methods
                        {["Clustering" := PStr "LDA"]})))
        as (merged & Hhanded & Hrows & _ & Hout).
      * apply elem_of_cons. right. apply elem_of_cons. left. reflexivity.
      * vm_compute. reflexivity.
      * exists merged. split; [exact Hhanded|]. split; [|exact Hout].
        rewrite Hrows. vm_compute. reflexivity.
    + destruct (Hold _ old eq_refl) as [_ [Hfile|[Hdamaged _]]].
      * apply elem_of_cons. left. reflexivity.
      * reflexivity.
      * exact Hfile.
      * vm_compute in Hdamaged. discriminate Hdamaged.
Defined.

Lemma elem_of_fields (enum : list (string * list string))
    (extract : string → result json) (pdfs : list string) (key raw : string) :
  (key, raw) ∈ mjoin ((λ pdf, fields_of enum (extract pdf)) <$> pdfs) ↔
  ∃ pdf, pdf ∈ pdfs ∧ (key, raw) ∈ fields_of enum (extract pdf).
Proof.
  rewrite list_elem_of_join. split.
  - intros (fs & Hin & (pdf & -> & Hpdf)%list_elem_of_fmap). eauto.
  - intros (pdf & Hpdf & Hin). eexists. split; [exact Hin|].
    apply list_elem_of_fmap. eauto.
Qed.

Lemma forget_keys enum : (forget enum).*1 = enum.*1.
Proof. unfold forget. rewrite <- list_fmap_compose. by apply list_fmap_ext. Qed.

Lemma fields_read_forget enum record :
  fields_read (forget enum) record = fields_read enum record.
Proof.
  induction enum as [|[k kn] enum IH]; [done|]. simpl.
  destruct (raw_of record k); try done. by rewrite IH.
Qed.

Lemma well_typed_forget enum record :
  well_typed (forget enum) record = well_typed enum record.
Proof.
  induction enum as [|[k kn] enum IH]; [done|].
  unfold well_typed in *. simpl. by rewrite IH.
Qed.

Lemma normalize_record_forget enum : ∀ record,
  normalize_record (forget enum) record = normalize_record enum record.
Proof.
  induction enum as [|[k kn] enum IH]; intros record; [done|]. simpl.
  destruct (raw_of record k); done.
Qed.

Lemma outcome_of_forget enum extracted :
  outcome_of (forget enum) extracted = outcome_of enum extracted.
Proof.
  destruct extracted as [[record|]|e]; simpl; [|by destruct enum|done].
  by rewrite well_typed_forget, normalize_record_forget.
Qed.

Lemma fields_of_forget enum extracted :
  fields_of (forget enum) extracted = fields_of enum extracted.
Proof.
  destruct extracted as [[record|]|e]; simpl; try done.
  apply fields_read_forget.
Qed.

Lemma consistent_forget enum nm : consistent enum nm → consistent (forget enum) nm.
Proof.
  intros Hc key known ([k kn] & Heq & Hin)%list_elem_of_fmap.
  simpl in Heq. injection Heq as -> ->.
  destruct (Hc k kn Hin) as (labels & Hl & _). exists labels.
  split; [done|]. simpl. apply empty_subseteq.
Qed.

(** The loop over the documents does the same with the test removed. *)
Lemma collect_forget enum extract pdfs :
  NoDup enum.*1 →
  Agent.collect (forget enum) extract pdfs [] []
    (Vocabulary.init_normalize_map enum)
  = Agent.collect enum extract pdfs [] []
      (Vocabulary.init_normalize_map enum).
Proof.
  intros Hnd.
  rewrite !collect_run;
    auto using init_consistent, consistent_forget; [|by rewrite forget_keys].
  assert (NoDup (forget enum).*1) as Hnd' by (by rewrite forget_keys).
  f_equal; [f_equal|].
  - f_equal. apply list_omap_ext, Forall2_same_length_lookup_2; [done|].
    intros i x y Hx Hy. assert (x = y) as -> by congruence.
    by rewrite !produced_outcome, outcome_of_forget.
  - f_equal. apply list_omap_ext, Forall2_same_length_lookup_2; [done|].
    intros i x y Hx Hy. assert (x = y) as -> by congruence.
    by rewrite !reported_outcome, outcome_of_forget.
  - do 2 f_equal. apply list_fmap_ext. intros _ pdf _.
    apply fields_of_forget.
Qed.

(** C10 as it is written does not hold: a document whose record has
    "Title" under AnalyzedFields and a list under Clustering yields no
    record, yet "Title" is saved. *)
Lemma saved_vocabulary_counterexample :
  ¬ (∀ enum extract to_excel pdfs excel merged saved,
       NoDup enum.*1 →
       Agent.outcome (Agent.main enum extract to_excel pdfs excel)
       = Ok (merged, saved) →
       ∀ key, (list_to_set <$> saved !! key : option (gset string))
              = vocabulary_of_successes enum extract pdfs !! key).
Proof.
  intros H.
  pose (extract := λ _ : string,
    Ok (JObject {["AnalyzedFields" := PStr "Title";
                  "Clustering" := PList "[LDA, DTM]"]})).
  assert (∃ merged saved,
            Agent.outcome (Agent.main Vocabulary.default_methods extract
                             (λ _, Ok ()) ["a.pdf"] None) = Ok (merged, saved) ∧
            saved !! "AnalyzedFields" = Some ["Title"]) as (merged & saved & E & Hs).
  { vm_compute. do 2 eexists. split; reflexivity. }
  specialize (H _ _ _ _ _ _ _ default_methods_NoDup E "AnalyzedFields").
  rewrite Hs in H.
  assert (vocabulary_of_successes Vocabulary.default_methods extract ["a.pdf"]
            !! "AnalyzedFields" = Some ∅) as Hv by (by vm_compute).
  rewrite Hv in H.
  assert ((list_to_set ["Title"] : gset string) = ∅) as Heq.
  { apply (inj Some). exact H. }
  assert ("Title" ∈ (list_to_set ["Title"] : gset string)) as Hin.
  { apply elem_of_list_to_set. by left. }
  rewrite Heq in Hin. by apply not_elem_of_empty in Hin.
Qed.

(** C10, amended.  In a run that reaches [save_methods], what is saved
    for a category is the labels loaded for it and the labels of every
    field of that category that was normalised: the category fields of
    the documents that yield a record and, for a record in which some
    category field is no text, the fields of the categories before that
    one.  The test against the loaded list changes nothing: in every
    state of the run the loop over the items does what the loop that
    always inserts does, and so does the loop over the documents. *)
Theorem saved_vocabulary (enum : list (string * list string))
    (extract : string → result json) (to_excel : DataFrame → result unit)
    (pdfs : list string) (excel : option DataFrame) (merged : DataFrame)
    (saved : gmap string (list string)) :
  NoDup enum.*1 →
  Agent.outcome (Agent.main enum extract to_excel pdfs excel)
  = Ok (merged, saved) →
  (∀ key known, (key, known) ∈ enum →
     ∃ labels, saved !! key = Some labels ∧
       ∀ l, l ∈ labels ↔
            l ∈ known ∨
            ∃ pdf raw, pdf ∈ pdfs ∧ (key, raw) ∈ fields_of enum (extract pdf) ∧
                       l ∈ items_of raw ∧ lower l ≠ "not specified") ∧
  (∀ pdf record, pdf ∈ pdfs → is_Some (produced enum extract pdf) →
     extract pdf = Ok (JObject record) →
     ∀ key, key ∈ enum.*1 →
       ∃ raw, default (PStr "Not specified") (record !! key) = PStr raw ∧
              (key, raw) ∈ fields_of enum (extract pdf)) ∧
  (∀ key known items acc nm, (key, known) ∈ enum → consistent enum nm →
     normalize_items key known items acc nm = insert_always key items acc nm) ∧
  Agent.collect enum extract pdfs [] [] (Vocabulary.init_normalize_map enum)
  = Agent.collect (forget enum) extract pdfs [] []
      (Vocabulary.init_normalize_map enum).
Proof.
  intros Hnd Hrun. rewrite main_run in Hrun by done.
  destruct (merge _ _) as [df|e]; [|done]. simpl in Hrun.
  destruct (to_excel df) as [u|e]; [|done]. injection Hrun as -> <-.
  split; [|split; [|split]].
  - intros key known Hin.
    destruct (add_fields_lookup
                (mjoin ((λ pdf, fields_of enum (extract pdf)) <$> pdfs))
                _ key _ (init_lookup _ _ _ Hnd Hin)) as (labels' & Hl & Hiff).
    rewrite save_methods_lookup, Hl. simpl. eexists. split; [done|].
    intros l. rewrite elem_of_sorted, Hiff, elem_of_list_to_set.
    apply or_iff_compat_l. split.
    + intros (raw & (pdf & Hpdf & Hf)%elem_of_fields & Hraw).
      exists pdf, raw. unfold labels_of in Hraw.
      apply elem_of_list_to_set, list_elem_of_filter in Hraw as [Hs Hit].
      unfold is_sentinel in Hs. apply bool_decide_eq_false in Hs. done.
    + intros (pdf & raw & Hpdf & Hf & Hit & Hs). exists raw. split.
      * apply elem_of_fields. eauto.
      * unfold labels_of. apply elem_of_list_to_set, list_elem_of_filter.
        split; [|done]. unfold is_sentinel. by apply bool_decide_eq_false.
  - intros pdf record Hpdf Hsome Hex key Hkey.
    rewrite produced_outcome, Hex in Hsome by done. rewrite Hex. simpl in *.
    destruct (well_typed enum record) eqn:Hwt; [|by destruct Hsome].
    clear Hsome Hex Hnd. induction enum as [|[k kn] enum IH].
    + by apply elem_of_nil in Hkey.
    + simpl in *. apply andb_true_iff in Hwt as [Hs Hwt].
      fold (raw_of record k). fold (raw_of record key).
      destruct (raw_of record k) as [r| | | | |] eqn:Hr; try done.
      apply elem_of_cons in Hkey as [->|Hkey].
      * exists r. split; [done|]. by left.
      * destruct (IH Hwt Hkey) as (raw & Hraw & Hin).
        exists raw. split; [done|]. by right.
  - intros key known items acc nm Hin Hc.
    destruct (Hc key known Hin) as (labels & Hl & Hsub).
    rewrite (normalize_items_run _ _ _ _ _ _ Hl).
    rewrite (insert_always_run _ _ _ _ _ Hl).
    by rewrite guard_absorbed.
  - symmetry. by apply collect_forget.
Qed.

Lemma saved_vocabulary_witness :
  let extract := λ pdf : string,
    if decide (pdf = "a.pdf")
    then Ok (JObject {["AnalyzedFields" := PStr "Title";
                       "Clustering" := PList "[LDA, DTM]"]})
    else Ok (JObject {["Clustering" := PStr "LDA; Not Specified"]}) in
  ∃ labels,
    Vocabulary.save_methods
      (Agent.collect Vocabulary.default_methods extract ["a.pdf"; "b.pdf"] [] []
         (Vocabulary.init_normalize_map Vocabulary.default_methods)).2
      !! "Clustering" = Some labels ∧
    "LDA" ∈ labels.
Proof.
  intros extract.
  destruct (saved_vocabulary Vocabulary.default_methods extract
              (λ _, Ok ()) ["a.pdf"; "b.pdf"] None
              (from_records
                 [ <["SourceFile" := PStr "b.pdf"]>
                     (normalize_record Vocabulary.default_methods
                        {["Clustering" := PStr "LDA; Not Specified"]}) ])
              (Vocabulary.save_methods
                 (Agent.collect Vocabulary.default_methods extract
                    ["a.pdf"; "b.pdf"] [] []
                    (Vocabulary.init_normalize_map
                       Vocabulary.default_methods)).2))
    as (Hsaved & _).
  - exact default_methods_NoDup.
  - vm_compute. reflexivity.
  - destruct (Hsaved "Clustering" []) as (labels & Hl & Hiff).
    + apply elem_of_cons. right. apply elem_of_cons. right.
      apply elem_of_cons. left. reflexivity.
    + exists labels. split; [exact Hl|]. apply Hiff. right.
      exists "b.pdf", "LDA; Not Specified". split; [|split; [|split]].
      * apply elem_of_cons. right. apply elem_of_cons. left. reflexivity.
      * vm_compute. apply elem_of_cons. right. apply elem_of_cons. right.
        apply elem_of_cons. left. reflexivity.
      * vm_compute. apply elem_of_cons. left. reflexivity.
      * vm_compute. discriminate.
Defined.

End RunClaims.

(** ** More on the merge *)

Section MergeMore.
Import Merger.

Lemma empty_no_rows df :
  "SourceFile" ∈ df_columns df ∨ df_rows df = [] →
  empty df = true → df_rows df = [].
Proof.
  intros [Hcol|Hrows] He; [|done]. unfold empty in He.
  apply orb_true_iff in He as [He|He]; apply bool_decide_eq_true in He; [|done].
  rewrite He in Hcol. by apply not_elem_of_empty in Hcol.
Qed.

Lemma from_records_column (new_records : list (gmap string pyval)) column :
  column ∈ df_columns (from_records new_records) ↔
  ∃ r, r ∈ new_records ∧ is_Some (r !! column).
Proof.
  unfold from_records. simpl. rewrite elem_of_union_list. split.
  - intros (X & (r & -> & Hr)%list_elem_of_fmap & Hin).
    exists r. split; [done|]. by apply elem_of_dom.
  - intros (r & Hr & Hsome). exists (dom r). split.
    + apply list_elem_of_fmap. by exists r.
    + by apply elem_of_dom.
Qed.

(** The rows of a merge that succeeds. *)
Lemma merge_rows df new_records merged :
  "SourceFile" ∈ df_columns df ∨ df_rows df = [] →
  merge df new_records = Ok merged →
  df_columns merged = df_columns df ∪ df_columns (from_records new_records) ∧
  df_rows merged =
    filter (λ row, row !! "SourceFile"
                   ∉ (λ r, r !! "SourceFile") <$> new_records) (df_rows df)
    ++ new_records.
Proof.
  intros Hcol. unfold merge. destruct (empty df) eqn:He; simpl.
  - intros [= <-]. simpl. split; [done|].
    by rewrite (empty_no_rows df Hcol He).
  - unfold getitem. destruct (decide _); [|done]. simpl.
    destruct (decide _); [|done]. intros [= <-]. split; [done|].
    change (df_rows (select df (eq_False (isin
              ((λ r, r !! "SourceFile") <$> df_rows df)
              ((λ r, r !! "SourceFile") <$> new_records)))) ++ new_records
            = filter (λ row, row !! "SourceFile"
                   ∉ (λ r, r !! "SourceFile") <$> new_records) (df_rows df)
              ++ new_records).
    by rewrite select_rows.
Qed.

(** When [merge] returns and when it raises: it returns if the existing
    table is empty, or if both frames have the [SourceFile] column;
    otherwise it raises [KeyError] for that column, and nothing else. *)
Theorem merge_outcome (df_existing : DataFrame)
    (new_records : list (gmap string pyval)) :
  let both :=
    empty df_existing = true ∨
    ("SourceFile" ∈ df_columns df_existing ∧
     ∃ r, r ∈ new_records ∧ is_Some (r !! "SourceFile")) in
  (both ∧ is_ok (merge df_existing new_records) = true) ∨
  (¬ both ∧ merge df_existing new_records = Raise (KeyError "SourceFile")).
Proof.
  simpl. unfold merge. destruct (empty df_existing) eqn:He; simpl.
  { left. split; [by left|done]. }
  unfold getitem. destruct (decide ("SourceFile" ∈ df_columns df_existing))
    as [Hcol|Hcol]; simpl.
  - destruct (decide _) as [Hnew|Hnew]; simpl.
    + left. split; [|done]. right. split; [done|].
      by apply (from_records_column new_records "SourceFile").
    + right. split; [|done]. intros [?|[_ Hr]]; [done|].
      by apply Hnew, (from_records_column new_records "SourceFile").
  - right. split; [|done]. intros [?|[? _]]; done.
Qed.

Lemma filter_new_records (new_records rs : list (gmap string pyval)) :
  rs ⊆ new_records →
  filter (λ row, row !! "SourceFile"
                 ∉ (λ r, r !! "SourceFile") <$> new_records) rs = [].
Proof.
  induction rs as [|r rs IH]; intros Hsub; [done|].
  rewrite filter_cons_False.
  - apply IH. intros x Hx. apply Hsub. by right.
  - intros Hnot. apply Hnot. apply list_elem_of_fmap. exists r.
    split; [done|]. apply Hsub. by left.
Qed.

(** Running the merge again with the same new records, each with its
    file name, changes nothing: the rows they replaced are replaced by
    themselves. *)
Theorem merge_again (df_existing merged : DataFrame)
    (new_records : list (gmap string pyval)) :
  "SourceFile" ∈ df_columns df_existing ∨ df_rows df_existing = [] →
  (∀ r, r ∈ new_records → is_Some (r !! "SourceFile")) →
  merge df_existing new_records = Ok merged →
  merge merged new_records = Ok merged.
Proof.
  intros Hcol Hids Hm. destruct (merge_rows _ _ _ Hcol Hm) as [Hc Hr].
  destruct new_records as [|r0 rs].
  - apply merge_empty_batch_of_empty. unfold empty.
    assert (empty df_existing = true) as He.
    { destruct (empty df_existing) eqn:He; [done|].
      destruct Hcol as [Hcol|Hrows].
      - by rewrite (merge_nothing_new _ He Hcol) in Hm.
      - unfold empty in He. rewrite Hrows in He.
        by rewrite orb_true_r in He. }
    apply orb_true_iff. right. apply bool_decide_eq_true.
    by rewrite Hr, (empty_no_rows _ Hcol He).
  - set (new_records := r0 :: rs) in *.
    assert (∃ r, r ∈ new_records ∧ is_Some (r !! "SourceFile")) as Hsome.
    { exists r0. split; [by left|]. apply Hids. by left. }
    rewrite merge_run; [|left|done].
    2:{ rewrite Hc. apply elem_of_union. right. by apply from_records_column. }
    f_equal. destruct merged as [cols rows].
    cbn [df_columns df_rows] in Hc, Hr |- *. subst cols rows.
    apply (f_equal2 mkDF).
    + apply set_eq. intros c. rewrite !elem_of_union. tauto.
    + rewrite filter_app, (filter_new_records new_records new_records) by done.
      rewrite app_nil_r. apply (f_equal (λ l, l ++ new_records)).
      rewrite list_filter_filter. apply list_filter_iff. tauto.
Qed.

Lemma merge_again_witness :
  let merged :=
    mkDF {["SourceFile"; "Clustering"]}
      [ {["SourceFile" := PStr "b.pdf"; "Clustering" := PStr "CorEx"]};
        {["SourceFile" := PStr "a.pdf"; "Clustering" := PStr "BERTopic"]} ] in
  merge merged
    [ {["SourceFile" := PStr "a.pdf"; "Clustering" := PStr "BERTopic"]} ]
  = Ok merged.
Proof.
  intros merged.
  apply (merge_again
    (mkDF {["SourceFile"; "Clustering"]}
       [ {["SourceFile" := PStr "a.pdf"; "Clustering" := PStr "LDA"]};
         {["SourceFile" := PStr "b.pdf"; "Clustering" := PStr "CorEx"]} ])).
  - left. simpl. apply elem_of_union. left. apply elem_of_singleton.
    reflexivity.
  - intros r Hr. apply list_elem_of_singleton in Hr. subst r.
    exists (PStr "a.pdf"). reflexivity.
  - vm_compute. reflexivity.
Defined.

(** The file names of the merged table are those of the existing table
    and those of the new records: no document disappears from it. *)
Theorem merge_keys (df_existing merged : DataFrame)
    (new_records : list (gmap string pyval)) (id : option pyval) :
  "SourceFile" ∈ df_columns df_existing ∨ df_rows df_existing = [] →
  merge df_existing new_records = Ok merged →
  id ∈ (λ r, r !! "SourceFile") <$> df_rows merged ↔
  id ∈ (λ r, r !! "SourceFile") <$> df_rows df_existing ∨
  id ∈ (λ r, r !! "SourceFile") <$> new_records.
Proof.
  intros Hcol Hm. destruct (merge_rows _ _ _ Hcol Hm) as [_ ->].
  rewrite fmap_app, elem_of_app. split.
  - intros [(row & -> & [_ Hrow]%list_elem_of_filter)%list_elem_of_fmap|?];
      [left|by right].
    apply list_elem_of_fmap. by exists row.
  - intros [(row & -> & Hrow)%list_elem_of_fmap|?]; [|by right].
    destruct (decide (row !! "SourceFile"
                      ∈ (λ r, r !! "SourceFile") <$> new_records)) as [?|Hn];
      [by right|left].
    apply list_elem_of_fmap. exists row. split; [done|].
    by apply list_elem_of_filter.
Qed.

Lemma merge_keys_witness :
  Some (PStr "b.pdf") ∈
    (λ r : gmap string pyval, r !! "SourceFile") <$>
      [ ({["SourceFile" := PStr "b.pdf"]} : gmap string pyval);
        {["SourceFile" := PStr "a.pdf"; "Clustering" := PStr "LDA"]} ].
Proof.
  apply (merge_keys
    (mkDF {["SourceFile"]}
       [ {["SourceFile" := PStr "a.pdf"]}; {["SourceFile" := PStr "b.pdf"]} ])
    (mkDF {["SourceFile"; "Clustering"]}
       [ {["SourceFile" := PStr "b.pdf"]};
         {["SourceFile" := PStr "a.pdf"; "Clustering" := PStr "LDA"]} ])
    [ {["SourceFile" := PStr "a.pdf"; "Clustering" := PStr "LDA"]} ]).
  - left. simpl. apply elem_of_singleton. reflexivity.
  - vm_compute. reflexivity.
  - left. simpl. apply elem_of_cons. right. apply elem_of_cons. left.
    reflexivity.
Defined.

Lemma NoDup_fmap_filter {A B} (f : A → B) (P : A → Prop)
    `{!∀ x, Decision (P x)} (l : list A) :
  NoDup (f <$> l) → NoDup (f <$> filter P l).
Proof.
  induction l as [|x l IH]; [done|]. rewrite fmap_cons, NoDup_cons.
  intros [Hx Hl]. rewrite filter_cons. destruct (decide (P x)); [|by apply IH].
  rewrite fmap_cons, NoDup_cons. split; [|by apply IH].
  intros (y & Hy & [_ Hin]%list_elem_of_filter)%list_elem_of_fmap.
  apply Hx, list_elem_of_fmap. by exists y.
Qed.

(** A table with one row per file name stays so: if no two existing
    rows and no two new records share a file name, no two rows of the
    merged table do. *)
Theorem merge_unique_keys (df_existing merged : DataFrame)
    (new_records : list (gmap string pyval)) :
  "SourceFile" ∈ df_columns df_existing ∨ df_rows df_existing = [] →
  merge df_existing new_records = Ok merged →
  NoDup ((λ r, r !! "SourceFile") <$> df_rows df_existing) →
  NoDup ((λ r, r !! "SourceFile") <$> new_records) →
  NoDup ((λ r, r !! "SourceFile") <$> df_rows merged).
Proof.
  intros Hcol Hm Hold Hnew. destruct (merge_rows _ _ _ Hcol Hm) as [_ ->].
  rewrite fmap_app. apply NoDup_app. split; [|split].
  - by apply NoDup_fmap_filter.
  - by intros id (row & -> & [Hn _]%list_elem_of_filter)%list_elem_of_fmap.
  - done.
Qed.

Lemma merge_unique_keys_witness :
  NoDup ((λ r : gmap string pyval, r !! "SourceFile") <$>
    [ ({["SourceFile" := PStr "b.pdf"]} : gmap string pyval);
      {["SourceFile" := PStr "a.pdf"; "Clustering" := PStr "LDA"]} ]).
Proof.
  apply (merge_unique_keys
    (mkDF {["SourceFile"]}
       [ {["SourceFile" := PStr "a.pdf"]}; {["SourceFile" := PStr "b.pdf"]} ])
    (mkDF {["SourceFile"; "Clustering"]}
       [ {["SourceFile" := PStr "b.pdf"]};
         {["SourceFile" := PStr "a.pdf"; "Clustering" := PStr "LDA"]} ])
    [ {["SourceFile" := PStr "a.pdf"; "Clustering" := PStr "LDA"]} ]).
  - left. simpl. apply elem_of_singleton. reflexivity.
  - vm_compute. reflexivity.
  - apply (bool_decide_unpack _). vm_compute. exact I.
  - apply (bool_decide_unpack _). vm_compute. exact I.
Defined.

(** Without a table on disk the merge never raises, whatever happens
    to the documents: the run gets to [to_excel] with the new records
    as the rows, none when every document failed, and ends as
    [to_excel] does. *)
Theorem first_run_reaches_writer (enum : list (string * list string))
    (extract : string → result json) (to_excel : DataFrame → result unit)
    (pdfs : list string) :
  ∃ merged,
    Agent.handed (Agent.main enum extract to_excel pdfs None) = Some merged ∧
    df_rows merged =
      (Agent.collect enum extract pdfs [] []
         (Vocabulary.init_normalize_map enum)).1.1 ∧
    Agent.outcome (Agent.main enum extract to_excel pdfs None) =
      match to_excel merged with
      | Raise e => Raise e
      | Ok _ =>
          Ok (merged,
              Vocabulary.save_methods
                (Agent.collect enum extract pdfs [] []
                   (Vocabulary.init_normalize_map enum)).2)
      end.
Proof.
  unfold Agent.main.
  destruct (Agent.collect _ _ _ _ _ _) as [[new_records errors] nm]. simpl.
  rewrite merge_first_run. by eexists.
Qed.

End MergeMore.

(** ** More on the run and on the normaliser *)

Section RunMore.
Import PyStr Normalizer Spec Merger.

Lemma omap_cons' {A B} (f : A → option B) (x : A) (l : list A) :
  omap f (x :: l) = match f x with Some y => y :: omap f l | None => omap f l end.
Proof. reflexivity. Qed.

Lemma produced_not_reported enum extract pdf rec :
  NoDup enum.*1 → produced enum extract pdf = Some rec →
  reported enum extract pdf = None.
Proof.
  intros Hnd. rewrite produced_outcome, reported_outcome by done.
  by destruct (outcome_of enum (extract pdf)) as [[r|]|e].
Qed.

(** Every document is accounted for once and in order: the failing ones
    on [stderr], the others in [new_records] under their file names. *)
Theorem every_document_accounted (enum : list (string * list string))
    (extract : string → result json) (pdfs : list string) :
  NoDup enum.*1 →
  let res := Agent.collect enum extract pdfs [] []
               (Vocabulary.init_normalize_map enum) in
  res.1.2.*1 = filter (λ pdf, produced enum extract pdf = None) pdfs ∧
  (λ r, r !! "SourceFile") <$> res.1.1
  = (λ pdf, Some (PStr (basename pdf))) <$>
      filter (λ pdf, is_Some (produced enum extract pdf)) pdfs ∧
  length res.1.1 + length res.1.2 = length pdfs.
Proof.
  intros Hnd res. subst res.
  rewrite collect_run by auto using init_consistent.
  cbn [fst snd app].
  induction pdfs as [|pdf pdfs (IH1 & IH2 & IH3)]; [done|].
  rewrite !omap_cons'.
  destruct (produced enum extract pdf) as [rec|] eqn:Hp.
  - rewrite (produced_not_reported _ _ _ _ Hnd Hp).
    rewrite filter_cons_False by (by rewrite Hp).
    rewrite filter_cons_True by (by rewrite Hp).
    rewrite !fmap_cons, (produced_source_file _ _ _ _ Hp), IH2.
    split; [done|]. split; [done|]. cbn [length]. by rewrite <- IH3.
  - destruct (failed_reported _ _ _ Hnd Hp) as [e ->].
    rewrite filter_cons_True by done.
    rewrite filter_cons_False by (rewrite Hp; by intros [? ?]).
    rewrite fmap_cons, IH1. split; [done|]. split; [done|].
    cbn [length]. rewrite <- IH3. lia.
Qed.

Lemma every_document_accounted_witness :
  let extract := λ pdf : string,
    if decide (pdf = "in/a.pdf") then Raise (RuntimeError "PDF read error")
    else Ok (JObject {["Clustering" := PStr "LDA"]}) in
  let res := Agent.collect Vocabulary.default_methods extract
               ["in/a.pdf"; "in/b.pdf"] [] []
               (Vocabulary.init_normalize_map Vocabulary.default_methods) in
  res.1.2.*1 = ["in/a.pdf"] ∧
  (λ r, r !! "SourceFile") <$> res.1.1 = [Some (PStr "b.pdf")] ∧
  length res.1.1 + length res.1.2 = 2.
Proof.
  intros extract.
  exact (every_document_accounted Vocabulary.default_methods extract
           ["in/a.pdf"; "in/b.pdf"] default_methods_NoDup).
Defined.

(** What is reported for a document is the extractor's own exception,
    or [AttributeError] when the answer is no object or has a category
    field that is no text, or [TypeError] when the answer is no object
    and there is no category; the label loop itself never fails. *)
Theorem reported_errors (enum : list (string * list string))
    (extract : string → result json) (to_excel : DataFrame → result unit)
    (pdfs : list string) (excel : option DataFrame) (pdf : string) (e : exn) :
  NoDup enum.*1 →
  (pdf, e) ∈ Agent.stderr (Agent.main enum extract to_excel pdfs excel) →
  pdf ∈ pdfs ∧
  (extract pdf = Raise e ∨
   (e = AttributeError ∧
    ((extract pdf = Ok JNotObject ∧ enum ≠ []) ∨
     ∃ record, extract pdf = Ok (JObject record) ∧
               well_typed enum record = false)) ∨
   (e = TypeError ∧ extract pdf = Ok JNotObject ∧ enum = [])).
Proof.
  intros Hnd. rewrite main_run by done.
  assert (∀ o1 o2 o3,
            Agent.stderr
              match merge (default no_frame excel)
                      (omap (produced enum extract) pdfs) with
              | Raise e0 => Agent.mkRun (omap (reported enum extract) pdfs) o1 (o2 e0)
              | Ok df => Agent.mkRun (omap (reported enum extract) pdfs)
                           (Some df) (o3 df)
              end = omap (reported enum extract) pdfs) as Herr.
  { intros. by destruct (merge _ _). }
  rewrite Herr.
  intros (x & Hx & Hrep)%list_elem_of_omap.
  rewrite reported_outcome in Hrep by done. unfold outcome_of in Hrep.
  destruct (extract x) as [[record|]|e'] eqn:Hex.
  - destruct (well_typed enum record) eqn:Hwt; [done|].
    injection Hrep as -> <-. split; [done|]. right. left.
    split; [done|]. right. rewrite Hex. by exists record.
  - destruct enum as [|kv enum]; injection Hrep as -> <-; (split; [done|]).
    + right. right. by rewrite Hex.
    + right. left. split; [done|]. left. by rewrite Hex.
  - injection Hrep as -> <-. split; [done|]. left. by rewrite Hex.
Qed.

Lemma reported_errors_witness :
  "a.pdf" ∈ ["a.pdf"] ∧
  ((λ _ : string, Ok (JObject {["Clustering" := PList "[LDA, DTM]"]})) "a.pdf"
     = Raise AttributeError ∨
   (AttributeError = AttributeError ∧
    (((λ _ : string, Ok (JObject {["Clustering" := PList "[LDA, DTM]"]})) "a.pdf"
        = Ok JNotObject ∧ Vocabulary.default_methods ≠ []) ∨
     ∃ record,
       (λ _ : string, Ok (JObject {["Clustering" := PList "[LDA, DTM]"]})) "a.pdf"
         = Ok (JObject record) ∧
       well_typed Vocabulary.default_methods record = false)) ∨
   (AttributeError = TypeError ∧
    (λ _ : string, Ok (JObject {["Clustering" := PList "[LDA, DTM]"]})) "a.pdf"
      = Ok JNotObject ∧ Vocabulary.default_methods = [])).
Proof.
  apply (reported_errors Vocabulary.default_methods
           (λ _, Ok (JObject {["Clustering" := PList "[LDA, DTM]"]}))
           (λ _, Ok ()) ["a.pdf"] None "a.pdf" AttributeError
           default_methods_NoDup).
  vm_compute. apply elem_of_cons. left. reflexivity.
Defined.



Lemma alter_union_swap (nm : gmap string (gset string)) k1 k2 (A B : gset string) :
  alter (λ ls, A ∪ ls) k1 (alter (λ ls, B ∪ ls) k2 nm)
  = alter (λ ls, B ∪ ls) k2 (alter (λ ls, A ∪ ls) k1 nm).
Proof.
  apply map_eq. intros k. rewrite !lookup_alter.
  repeat case_decide; subst; try done.
  destruct (nm !! k) as [ls|]; [|done]. simpl. f_equal.
  apply set_eq. intros l. rewrite !elem_of_union. tauto.
Qed.

Lemma add_fields_Permutation fs fs' :
  fs ≡ₚ fs' → ∀ nm, add_fields fs nm = add_fields fs' nm.
Proof.
  induction 1 as [|x l l' _ IH|x y l|l1 l2 l3 _ IH1 _ IH2]; intros nm.
  - done.
  - apply IH.
  - unfold add_fields. simpl. by rewrite alter_union_swap.
  - by rewrite IH1.
Qed.

(** The labels a run gathers do not depend on the order in which the
    documents are processed. *)
Theorem vocabulary_order_independent (enum : list (string * list string))
    (extract : string → result json) (pdfs pdfs' : list string) :
  NoDup enum.*1 → pdfs ≡ₚ pdfs' →
  (Agent.collect enum extract pdfs [] [] (Vocabulary.init_normalize_map enum)).2
  = (Agent.collect enum extract pdfs' [] [] (Vocabulary.init_normalize_map enum)).2.
Proof.
  intros Hnd Hp. rewrite !collect_run by auto using init_consistent. simpl.
  apply add_fields_Permutation. by rewrite Hp.
Qed.

Lemma vocabulary_order_independent_witness :
  let extract := λ pdf : string,
    if decide (pdf = "a.pdf") then Ok (JObject {["Clustering" := PStr "LDA; DTM"]})
    else Ok (JObject {["Clustering" := PStr "BERTopic; LDA"]}) in
  (Agent.collect Vocabulary.default_methods extract ["a.pdf"; "b.pdf"] [] []
     (Vocabulary.init_normalize_map Vocabulary.default_methods)).2
  = (Agent.collect Vocabulary.default_methods extract ["b.pdf"; "a.pdf"] [] []
       (Vocabulary.init_normalize_map Vocabulary.default_methods)).2.
Proof.
  intros extract. apply vocabulary_order_independent.
  - exact default_methods_NoDup.
  - apply perm_swap.
Defined.

Lemma fields_read_complete enum record key raw :
  well_typed enum record = true → key ∈ enum.*1 →
  raw_of record key = PStr raw → (key, raw) ∈ fields_read enum record.
Proof.
  induction enum as [|[k kn] enum IH]; intros Hwt Hkey Hraw.
  - by apply elem_of_nil in Hkey.
  - simpl in *. apply andb_true_iff in Hwt as [Hs Hwt].
    destruct (raw_of record k) as [r| | | | |] eqn:Hr; try done.
    apply elem_of_cons in Hkey as [->|Hkey].
    + rewrite Hraw in Hr. injection Hr as ->. by left.
    + right. by apply IH.
Qed.

(** A record whose category fields are canonical texts whose labels the
    state already holds goes through the loop unchanged, and so does the
    state. *)
Lemma process_record_fixed enum : ∀ record nm,
  (∀ key known, (key, known) ∈ enum →
     ∃ t labels, record !! key = Some (PStr t) ∧ canonical_text t = t ∧
       nm !! key = Some labels ∧ list_to_set known ⊆ labels ∧
       labels_of t ⊆ labels) →
  process_record enum record nm = (Ok record, nm).
Proof.
  induction enum as [|[key known] enum IH]; intros record nm H; [done|].
  destruct (H key known) as (t & labels & Hr & Ht & Hl & Hsub & Hlab);
    [by left|].
  change (process_record ((key, known) :: enum) record nm)
    with (bind (normalize_field key known
                  (default (PStr sentinel) (record !! key)))
               (λ text, process_record enum (<[key := PStr text]> record)) nm).
  unfold bind. rewrite Hr.
  change (default (PStr sentinel) (Some (PStr t))) with (PStr t).
  rewrite (normalize_field_consistent _ _ _ _ _ Hl Hsub), Ht.
  rewrite alter_id.
  2:{ intros x Hx. rewrite Hl in Hx. injection Hx as <-.
      by apply subseteq_union_1_L. }
  rewrite insert_id by done. apply IH.
  intros k kn Hin. apply H. by right.
Qed.

(** Normalising a normalised record changes neither the record nor the
    vocabulary. *)
Theorem process_record_idempotent (enum : list (string * list string))
    (record record' : gmap string pyval) (nm nm' : gmap string (gset string)) :
  NoDup enum.*1 → consistent enum nm →
  process_record enum record nm = (Ok record', nm') →
  process_record enum record' nm' = (Ok record', nm').
Proof.
  intros Hnd Hc. rewrite process_record_run by done.
  destruct (well_typed enum record) eqn:Hwt; [|done]. intros [= <- <-].
  apply process_record_fixed. intros key known Hin.
  assert (key ∈ enum.*1) as Hkey.
  { apply list_elem_of_fmap. by exists (key, known). }
  assert (∃ raw, raw_of record key = PStr raw) as [raw Hraw].
  { unfold well_typed in Hwt. rewrite forallb_forall in Hwt.
    apply list_elem_of_In, Hwt in Hin. simpl in Hin.
    destruct (raw_of record key); try done. by eexists. }
  destruct (Hc key known Hin) as (labels & Hl & Hsub).
  destruct (add_fields_lookup (fields_read enum record) nm key labels Hl)
    as (labels' & Hl' & Hiff).
  exists (canonical_text raw), labels'.
  split; [by apply normalize_record_field|].
  split; [apply canonical_text_idem|]. split; [done|]. split.
  - intros l Hlk. apply Hiff. left. by apply Hsub.
  - rewrite labels_of_canonical_text. intros l Hlab. apply Hiff. right.
    exists raw. split; [|done]. by apply fields_read_complete.
Qed.

Lemma process_record_idempotent_witness :
  let record' : gmap string pyval :=
    {["AnalyzedFields" := PStr "Not specified";
      "TermPreprocessing" := PStr "Not specified";
      "Clustering" := PStr "LDA; DTM";
      "ClusterAnalysis" := PStr "Not specified"]} in
  let nm' : gmap string (gset string) :=
    {["AnalyzedFields" := ∅; "TermPreprocessing" := ∅;
      "Clustering" := {["LDA"; "DTM"]}; "ClusterAnalysis" := ∅]} in
  process_record Vocabulary.default_methods record' nm' = (Ok record', nm').
Proof.
  intros record' nm'.
  apply (process_record_idempotent Vocabulary.default_methods
           {["Clustering" := PStr " LDA ;; DTM"]} record'
           (Vocabulary.init_normalize_map Vocabulary.default_methods) nm').
  - exact default_methods_NoDup.
  - exact (init_consistent _ default_methods_NoDup).
  - vm_compute. reflexivity.
Defined.

(** The text left in a category field is never empty, has no blank
    piece between its semicolons, and names the sentinel only as "Not
    specified". *)
Theorem normalized_text_shape (key : string) (known : list string)
    (raw : string) (nm : gmap string (gset string)) (labels : gset string) :
  nm !! key = Some labels →
  ∃ text nm',
    normalize_field key known (PStr raw) nm = (Ok text, nm') ∧
    text ≠ "" ∧
    Forall (λ piece, strip piece ≠ "") (split ";" text) ∧
    Forall (λ it, lower it = "not specified" → it = "Not specified")
           (strip <$> split ";" text).
Proof.
  intros Hkey. rewrite (normalize_field_run _ _ _ _ _ Hkey).
  do 2 eexists. split; [done|].
  assert (∃ x l, Forall clean (x :: l) ∧
            Forall (λ it, lower it = "not specified" → it = "Not specified")
                   (x :: l) ∧
            canonical_text raw = join "; " (x :: l)) as (x & l & Hcl & Hs & ->).
  { unfold canonical_text.
    pose proof (items_of_clean raw) as Hcl.
    destruct (items_of raw) as [|x l].
    - exists sentinel, []. split; [|split; [|done]].
      + constructor; [apply sentinel_clean|done].
      + by constructor.
    - exists (canon x), (canon <$> l). split; [|split; [|done]].
      + rewrite <- fmap_cons. apply Forall_fmap.
        eapply Forall_impl; [exact Hcl|]. intros it. apply canon_clean.
      + rewrite <- fmap_cons. apply Forall_fmap, Forall_forall.
        intros it _. unfold compose, canon.
        destruct (is_sentinel it) eqn:Hsent;
          [intros _; reflexivity|].
        intros Hlow. apply bool_decide_eq_false in Hsent. by destruct Hsent. }
  assert (split ";" (join "; " (x :: l)) = x :: ((λ it, " " +:+ it) <$> l))
    as Hsplit.
  { change (join "; " (x :: l)) with ("" +:+ join "; " (x :: l)).
    rewrite split_join; [done|done|].
    eapply Forall_impl; [exact Hcl|]. by intros it (_ & _ & ?). }
  assert (strip <$> split ";" (join "; " (x :: l)) = x :: l) as Hstrip.
  { rewrite Hsplit, fmap_cons, <- list_fmap_compose.
    apply Forall_cons in Hcl as [(Hx & _) Hcl]. rewrite Hx. f_equal.
    clear -Hcl. induction l as [|y l IH]; [done|].
    apply Forall_cons in Hcl as [(Hy & _) Hcl]. rewrite fmap_cons. simpl.
    change (" " +:+ y) with (String " " y).
    rewrite strip_space_cons by done. rewrite Hy. f_equal. by apply IH. }
  split; [|split].
  - intros Hempty. rewrite Hempty in Hstrip. simpl in Hstrip.
    injection Hstrip as <- _. by apply Forall_cons in Hcl as [(_ & ? & _) _].
  - apply Forall_forall. intros piece Hp.
    assert (strip piece ∈ x :: l) as Hin.
    { rewrite <- Hstrip. apply list_elem_of_fmap. by exists piece. }
    rewrite Forall_forall in Hcl. by destruct (Hcl _ Hin) as (_ & ? & _).
  - by rewrite Hstrip.
Qed.

Lemma normalized_text_shape_witness :
  ∃ text nm',
    normalize_field "Clustering" [] (PStr " LDA ;; not SPECIFIED ; ")
      {["Clustering" := ∅]} = (Ok text, nm') ∧
    text ≠ "" ∧
    Forall (λ piece, strip piece ≠ "") (split ";" text) ∧
    Forall (λ it, lower it = "not specified" → it = "Not specified")
           (strip <$> split ";" text).
Proof.
  apply (normalized_text_shape "Clustering" [] " LDA ;; not SPECIFIED ; "
           {["Clustering" := ∅]} ∅).
  reflexivity.
Defined.

Lemma list_to_set_sorted (v : gset string) :
  list_to_set (merge_sort String.le (elements v)) = v.
Proof.
  apply set_eq. intros l. by rewrite elem_of_list_to_set, elem_of_sorted.
Qed.

(** What [save_methods] writes is read back as the same label sets:
    [normalize_map] of the next run starts where this run's ended. *)
Theorem reload_saved_labels (nm : gmap string (gset string))
    (enum' : list (string * list string)) :
  list_to_map enum' = Vocabulary.save_methods nm →
  Vocabulary.init_normalize_map enum' = nm.
Proof.
  intros Hfile. unfold Vocabulary.init_normalize_map.
  assert ((λ kv : string * list string,
             (kv.1, list_to_set kv.2 : gset string)) <$> enum'
          = prod_map id list_to_set <$> enum') as ->.
  { apply list_fmap_ext. by intros i [k v]. }
  rewrite (list_to_map_fmap (M := gmap string)), Hfile.
  apply map_eq. intros key.
  rewrite lookup_fmap, save_methods_lookup.
  destruct (nm !! key) as [v|]; [|done]. simpl. f_equal.
  apply list_to_set_sorted.
Qed.

Lemma reload_saved_labels_witness :
  Vocabulary.init_normalize_map
    [("Clustering", ["DTM"; "LDA"]); ("AnalyzedFields", [])]
  = {["Clustering" := {["LDA"; "DTM"]}; "AnalyzedFields" := ∅]}.
Proof.
  apply reload_saved_labels. vm_compute. reflexivity.
Defined.

(** Each list [save_methods] writes is in ascending order without
    repetitions, and holds exactly the labels of its category. *)
Theorem saved_lists_sorted (nm : gmap string (gset string)) (key : string)
    (labels : list string) :
  Vocabulary.save_methods nm !! key = Some labels →
  Sorted String.le labels ∧ NoDup labels ∧
  ∃ v, nm !! key = Some v ∧ ∀ l, l ∈ labels ↔ l ∈ v.
Proof.
  rewrite save_methods_lookup. destruct (nm !! key) as [v|]; [|done].
  simpl. intros [= <-]. split; [|split].
  - apply (Sorted_merge_sort _).
  - rewrite merge_sort_Permutation. apply NoDup_elements.
  - exists v. split; [done|]. intros l. apply elem_of_sorted.
Qed.

Lemma saved_lists_sorted_witness :
  Sorted String.le ["DTM"; "LDA"; "lda"] ∧ NoDup ["DTM"; "LDA"; "lda"] ∧
  ∃ v : gset string,
    ({["Clustering" := {["lda"; "LDA"; "DTM"]}]} : gmap string (gset string))
      !! "Clustering" = Some v ∧
    ∀ l, l ∈ ["DTM"; "LDA"; "lda"] ↔ l ∈ v.
Proof.
  apply (saved_lists_sorted {["Clustering" := {["lda"; "LDA"; "DTM"]}]}
           "Clustering").
  vm_compute. reflexivity.
Defined.

End RunMore.

(** ** The code fence around the model's answer *)

Section FenceFacts.
Import PyStr Fence.

Lemma startswith_app p s : startswith p (p +:+ s) = true.
Proof.
  induction p as [|c p IH]; [done|]. rewrite app_cons. simpl.
  by rewrite bool_decide_eq_true_2, IH.
Qed.

Lemma startswith_app_break p : ∀ x r,
  contains LF p = false → startswith p x = false →
  startswith p (x +:+ String LF r) = false.
Proof.
  induction p as [|a p IH]; intros x r Hp Hx; [done|].
  simpl in Hp. apply orb_false_elim in Hp as [Ha Hp].
  apply bool_decide_eq_false in Ha.
  destruct x as [|c x].
  - change ("" +:+ String LF r) with (String LF r). simpl.
    rewrite bool_decide_eq_false_2; [done|]. congruence.
  - rewrite app_cons. simpl in *.
    apply andb_false_iff in Hx as [Hx|Hx]; [by rewrite Hx|].
    rewrite (IH _ _ Hp Hx). apply andb_false_r.
Qed.

Lemma startswith_join (l : list string) :
  Forall (λ line, startswith fence line = false) l →
  startswith fence (join (String LF "") l) = false.
Proof.
  destruct l as [|x l]; [done|]. intros [Hx _]%Forall_cons.
  destruct l as [|y l]; [done|]. rewrite join_cons2.
  change (String LF "" +:+ join (String LF "") (y :: l))
    with (String LF (join (String LF "") (y :: l))).
  by apply startswith_app_break.
Qed.

(** After lines 102-103 the answer does not begin with a code fence, so
    doing them again changes nothing. *)
Theorem unfence_idempotent (content : string) :
  startswith fence (unfence content) = false ∧
  unfence (unfence content) = unfence content.
Proof.
  assert (startswith fence (unfence content) = false) as H.
  { unfold unfence. destruct (startswith fence content) eqn:Hs; [|done].
    apply startswith_join, Forall_forall.
    by intros line [? _]%list_elem_of_filter. }
  split; [done|]. unfold unfence at 1. by rewrite H.
Qed.

Lemma has_linebreak_app s t :
  has_linebreak (s +:+ t) = has_linebreak s || has_linebreak t.
Proof.
  induction s as [|c s IH]; [done|]. rewrite app_cons. simpl.
  by rewrite IH, orb_assoc.
Qed.

Lemma splitlines_LF rest : splitlines (String LF rest) = "" :: splitlines rest.
Proof.
  destruct rest as [|d r]; [done|].
  change (splitlines (String LF (String d r)))
    with ("" :: if decide (LF = CR ∧ d = LF) then splitlines r
                else splitlines (String d r)).
  destruct (decide _) as [[H _]|_]; [discriminate H|done].
Qed.

Lemma splitlines_line line rest :
  has_linebreak line = false →
  splitlines (line +:+ String LF rest) = line :: splitlines rest.
Proof.
  induction line as [|c line IH]; intros Hb.
  - apply splitlines_LF.
  - simpl in Hb. apply orb_false_elim in Hb as [Hc Hb].
    rewrite app_cons.
    change (splitlines (String c (line +:+ String LF rest)))
      with (if is_linebreak c then
              "" :: match line +:+ String LF rest with
                    | String d r2 =>
                        if decide (c = CR ∧ d = LF) then splitlines r2
                        else splitlines (line +:+ String LF rest)
                    | EmptyString => []
                    end
            else match splitlines (line +:+ String LF rest) with
                 | [] => [String c ""]
                 | l :: ls => String c l :: ls
                 end).
    by rewrite Hc, IH.
Qed.

Lemma splitlines_single s :
  has_linebreak s = false → s ≠ "" → splitlines s = [s].
Proof.
  induction s as [|c s IH]; intros Hb Hne; [done|].
  simpl in Hb. apply orb_false_elim in Hb as [Hc Hb]. simpl. rewrite Hc.
  destruct s as [|d s]; [done|]. by rewrite IH.
Qed.

Lemma splitlines_lines (l : list string) : ∀ x rest,
  Forall (λ line, has_linebreak line = false) (x :: l) →
  splitlines (join (String LF "") (x :: l) +:+ String LF rest)
  = (x :: l) ++ splitlines rest.
Proof.
  induction l as [|y l IH]; intros x rest [Hx Hl]%Forall_cons.
  - by apply splitlines_line.
  - rewrite join_cons2, !app_assoc'.
    change (String LF "" +:+ join (String LF "") (y :: l) +:+ String LF rest)
      with (String LF (join (String LF "") (y :: l) +:+ String LF rest)).
    rewrite splitlines_line by done. by rewrite IH.
Qed.

(** A fenced answer is unwrapped: an opening fence line, body lines
    none of which begins with a fence, and a closing fence give the
    body lines back, joined by line feeds. *)
Theorem unfence_fenced (lang : string) (lines : list string) :
  has_linebreak lang = false →
  Forall (λ line, has_linebreak line = false ∧ startswith fence line = false)
         lines →
  unfence (fence +:+ lang +:+ String LF "" +:+ join (String LF "") lines
           +:+ String LF "" +:+ fence)
  = join (String LF "") lines.
Proof.
  intros Hlang Hlines. unfold unfence. rewrite startswith_app.
  change (String LF "" +:+ join (String LF "") lines +:+ String LF "" +:+ fence)
    with (String LF (join (String LF "") lines +:+ String LF fence)).
  rewrite <- app_assoc'.
  rewrite splitlines_line by (by rewrite has_linebreak_app, Hlang).
  rewrite filter_cons_False by (by rewrite startswith_app).
  assert (∀ l : list string,
            Forall (λ line, has_linebreak line = false
                            ∧ startswith fence line = false) l →
            filter (λ line, startswith fence line = false) (l ++ [fence]) = l)
    as Hkeep.
  { induction l as [|y l IH]; [done|]. intros [[_ Hy] Hl]%Forall_cons.
    rewrite <- app_comm_cons, filter_cons_True by done. f_equal.
    by apply IH. }
  destruct lines as [|x l].
  - change (join (String LF "") [] +:+ String LF fence) with (String LF fence).
    rewrite splitlines_LF. by rewrite (splitlines_single fence).
  - rewrite splitlines_lines.
    + rewrite (splitlines_single fence) by done. f_equal.
      by apply (Hkeep (x :: l)).
    + eapply Forall_impl; [exact Hlines|]. by intros line [? _].
Qed.

Lemma unfence_fenced_witness :
  unfence ("```json" +:+ String LF "" +:+
           join (String LF "") ["{"; "  Clustering: LDA"; "}"]
           +:+ String LF "" +:+ "```")
  = join (String LF "") ["{"; "  Clustering: LDA"; "}"].
Proof.
  apply (unfence_fenced "json" ["{"; "  Clustering: LDA"; "}"]).
  - reflexivity.
  - repeat constructor.
Defined.

End FenceFacts.

(** ** The documents of a directory and their file names *)

Section ListingFacts.
Import PyStr Fence Listing Spec Merger.

Lemma basename_cons c r :
  basename (String c r)
  = if contains "/" r then basename r
    else if decide (c = "/"%char) then r else String c r.
Proof. reflexivity. Qed.

Lemma contains_cons c d r :
  contains c (String d r) = bool_decide (d = c) || contains c r.
Proof. reflexivity. Qed.

Lemma basename_no_slash f : contains "/" f = false → basename f = f.
Proof.
  destruct f as [|c r]; [done|]. rewrite contains_cons, basename_cons.
  intros [Hc Hr]%orb_false_elim. apply bool_decide_eq_false in Hc.
  rewrite Hr. by destruct (decide (c = "/"%char)).
Qed.

Lemma basename_app_slash a f :
  contains "/" f = false → basename (a +:+ String "/" f) = f.
Proof.
  intros Hf. induction a as [|c a IH].
  - change ("" +:+ String "/" f) with (String "/" f).
    rewrite basename_cons, Hf. by destruct (decide _).
  - rewrite app_cons, basename_cons, contains_app, contains_cons.
    rewrite bool_decide_eq_true_2 by done.
    by rewrite orb_true_r.
Qed.

Lemma endswith_slash a : endswith "/" a = true → ∃ a', a = a' +:+ "/".
Proof.
  induction a as [|c a IH].
  - intros H. by vm_compute in H.
  - change (endswith "/" (String c a))
      with (bool_decide (String c a = "/") || endswith "/" a).
    intros [H|H]%orb_true_iff.
    + apply bool_decide_eq_true in H. exists "". by rewrite H.
    + destruct (IH H) as [a' ->]. by exists (String c a').
Qed.

Lemma basename_path_join_entry dir f :
  contains "/" f = false → basename (path_join dir f) = f.
Proof.
  intros Hf. unfold path_join.
  destruct (startswith "/" f) eqn:Hs.
  { destruct f as [|c r]; [done|]. simpl in *.
    apply andb_true_iff in Hs as [Hc _]. by rewrite Hc in Hf. }
  destruct (bool_decide (dir = "") || endswith "/" dir) eqn:Hd.
  - apply orb_true_iff in Hd as [Hd|Hd].
    + apply bool_decide_eq_true in Hd. subst dir.
      by apply basename_no_slash.
    + destruct (endswith_slash _ Hd) as [a' ->]. rewrite app_assoc'.
      change ("/" +:+ f) with (String "/" f). by apply basename_app_slash.
  - change ("/" +:+ f) with (String "/" f). by apply basename_app_slash.
Qed.

Lemma basename_pdfs_of input names :
  Forall (λ f, contains "/" f = false) names →
  basename <$> pdfs_of input (Some names)
  = filter (λ f, endswith ".pdf" (lower f) = true) names.
Proof.
  intros Hnames. unfold pdfs_of. rewrite <- list_fmap_compose.
  rewrite <- (list_fmap_id (filter _ names)) at 2.
  apply list_fmap_ext. intros i f Hf. simpl.
  apply basename_path_join_entry. rewrite Forall_forall in Hnames.
  apply Hnames. apply list_elem_of_lookup_2 in Hf.
  by apply list_elem_of_filter in Hf as [_ ?].
Qed.

(** The file name of a joined path is the directory entry it was made
    from, for an entry without a slash, as [os.listdir] gives them. *)
Theorem basename_path_join (dir f : string) :
  contains "/" f = false → basename (path_join dir f) = f.
Proof. apply basename_path_join_entry. Qed.

Lemma basename_path_join_witness :
  basename (path_join "papers/2024/" "a.pdf") = "a.pdf".
Proof. apply basename_path_join. reflexivity. Defined.

(** For a directory, the file names of the documents of the run are the
    entries that end in ".pdf" in any casing, in the order of the
    listing, each once if the listing has each entry once. *)
Theorem directory_file_names (input : string) (names : list string) :
  Forall (λ f, contains "/" f = false) names →
  basename <$> pdfs_of input (Some names)
  = filter (λ f, endswith ".pdf" (lower f) = true) names ∧
  (NoDup names → NoDup (basename <$> pdfs_of input (Some names))).
Proof.
  intros Hnames. pose proof (basename_pdfs_of input names Hnames) as Heq.
  split; [done|]. intros Hnd. rewrite Heq. by apply NoDup_filter.
Qed.

Lemma directory_file_names_witness :
  basename <$> pdfs_of "in" (Some ["a.PDF"; "notes.txt"; "b.pdf"])
  = filter (λ f, endswith ".pdf" (lower f) = true)
           ["a.PDF"; "notes.txt"; "b.pdf"] ∧
  (NoDup ["a.PDF"; "notes.txt"; "b.pdf"] →
   NoDup (basename <$> pdfs_of "in" (Some ["a.PDF"; "notes.txt"; "b.pdf"]))).
Proof.
  apply directory_file_names. repeat constructor.
Defined.

Lemma new_record_ids (enum : list (string * list string))
    (extract : string → result json) (pdfs : list string) :
  (λ r, r !! "SourceFile") <$> omap (produced enum extract) pdfs
  = (λ pdf, Some (PStr (basename pdf))) <$>
      filter (λ pdf, is_Some (produced enum extract pdf)) pdfs.
Proof.
  induction pdfs as [|pdf pdfs IH]; [done|]. rewrite omap_cons'.
  destruct (produced enum extract pdf) as [rec|] eqn:Hp.
  - rewrite filter_cons_True by (by rewrite Hp).
    by rewrite !fmap_cons, (produced_source_file _ _ _ _ Hp), IH.
  - rewrite filter_cons_False by (rewrite Hp; by intros [? ?]). done.
Qed.

(** A run over a directory keeps the table keyed by file name: if no
    two existing rows share one, no two rows of the frame handed to
    [to_excel] do. *)
Theorem directory_run_keys_unique (enum : list (string * list string))
    (extract : string → result json) (to_excel : DataFrame → result unit)
    (input : string) (names : list string) (df_existing merged : DataFrame) :
  NoDup enum.*1 →
  Forall (λ f, contains "/" f = false) names → NoDup names →
  "SourceFile" ∈ df_columns df_existing ∨ df_rows df_existing = [] →
  NoDup ((λ r, r !! "SourceFile") <$> df_rows df_existing) →
  Agent.handed (Agent.main enum extract to_excel (pdfs_of input (Some names))
                  (Some df_existing)) = Some merged →
  NoDup ((λ r, r !! "SourceFile") <$> df_rows merged).
Proof.
  intros Hnd Hnames Hnd' Hcol Hold. rewrite main_run by done.
  change (default no_frame (Some df_existing)) with df_existing.
  destruct (merge _ _) as [df|e] eqn:Hm; [|done]. simpl. intros [= ->].
  destruct (merge_rows _ _ _ Hcol Hm) as [_ ->].
  rewrite fmap_app. apply NoDup_app. split; [|split].
  - by apply NoDup_fmap_filter.
  - by intros id (row & -> & [Hn _]%list_elem_of_filter)%list_elem_of_fmap.
  - rewrite new_record_ids.
    rewrite (list_fmap_compose basename (λ b, Some (PStr b))).
    apply NoDup_fmap_2; [by intros b b' [= ->]|].
    apply NoDup_fmap_filter.
    change (NoDup (basename <$> pdfs_of input (Some names))).
    rewrite basename_pdfs_of by done. by apply NoDup_filter.
Qed.

End ListingFacts.

Section ListingWitness.
Import PyStr Listing Spec Merger.

Lemma directory_run_keys_unique_witness :
  ∃ merged,
    Agent.handed
      (Agent.main Vocabulary.default_methods
         (λ _, Ok (JObject {["Clustering" := PStr "LDA"]}))
         (λ _, Raise (ValueError "cell"))
         (pdfs_of "in" (Some ["a.pdf"; "b.pdf"]))
         (Some (mkDF {["SourceFile"]} [ {["SourceFile" := PStr "a.pdf"]} ])))
    = Some merged ∧
    NoDup ((λ r, r !! "SourceFile") <$> df_rows merged).
Proof.
  assert (∃ merged,
    Agent.handed
      (Agent.main Vocabulary.default_methods
         (λ _, Ok (JObject {["Clustering" := PStr "LDA"]}))
         (λ _, Raise (ValueError "cell"))
         (pdfs_of "in" (Some ["a.pdf"; "b.pdf"]))
         (Some (mkDF {["SourceFile"]} [ {["SourceFile" := PStr "a.pdf"]} ])))
    = Some merged) as (merged & Hrun).
  { vm_compute. eexists. reflexivity. }
  exists merged. split; [exact Hrun|].
  apply (directory_run_keys_unique Vocabulary.default_methods
           (λ _, Ok (JObject {["Clustering" := PStr "LDA"]}))
           (λ _, Raise (ValueError "cell"))
           "in" ["a.pdf"; "b.pdf"]
           (mkDF {["SourceFile"]} [ {["SourceFile" := PStr "a.pdf"]} ])
           merged).
  - exact default_methods_NoDup.
  - repeat constructor.
  - apply (bool_decide_unpack _). vm_compute. exact I.
  - left. simpl. apply elem_of_singleton. reflexivity.
  - apply (bool_decide_unpack _). vm_compute. exact I.
  - exact Hrun.
Defined.

End ListingWitness.

(** ** [generate_methods.py] *)

Section GenerateFacts.
Import PyStr Normalizer Spec Merger GenerateMethods.

Lemma elem_of_unique_from (l : list string) : ∀ seen x,
  x ∈ unique_from seen l ↔ x ∈ l ∧ x ∉ seen.
Proof.
  induction l as [|y l IH]; intros seen x; simpl.
  - split; [by intros ?%elem_of_nil|by intros [?%elem_of_nil _]].
  - case_bool_decide as Hy.
    + rewrite IH, elem_of_cons. split; [tauto|].
      intros [[->|?] Hx]; [done|tauto].
    + rewrite !elem_of_cons, IH, not_elem_of_cons. split.
      * intros [->|(? & ? & ?)]; tauto.
      * intros [[->|?] Hx]; [tauto|].
        destruct (decide (x = y)); tauto.
Qed.

Lemma NoDup_unique_from (l : list string) : ∀ seen, NoDup (unique_from seen l).
Proof.
  induction l as [|y l IH]; intros seen; simpl; [constructor|].
  case_bool_decide; [apply IH|]. constructor; [|apply IH].
  rewrite elem_of_unique_from, not_elem_of_cons. tauto.
Qed.

Lemma elem_of_unique_items (items : list string) l :
  l ∈ unique_items items ↔ l ≠ "" ∧ l ∈ items.
Proof.
  unfold unique_items, unique.
  rewrite merge_sort_Permutation, list_elem_of_filter, elem_of_unique_from.
  split; [tauto|]. intros [? ?]. split; [done|]. split; [done|].
  apply not_elem_of_nil.
Qed.

Lemma elem_of_column_items (series : list (option pyval)) l :
  l ≠ "" ∧ l ∈ column_items series ↔
  ∃ v, v ∈ dropna series ∧ l ∈ items_of (py_str v).
Proof.
  unfold column_items, items_of. split.
  - intros [Hne (piece & -> & Hp)%list_elem_of_fmap].
    apply list_elem_of_join in Hp as (pieces & Hp & Hps).
    apply list_elem_of_fmap in Hps as (text & -> & Ht).
    apply list_elem_of_fmap in Ht as (v & -> & Hv).
    exists v. split; [done|]. apply list_elem_of_filter. split; [done|].
    apply list_elem_of_fmap. by exists piece.
  - intros (v & Hv & [Hne (piece & -> & Hp)%list_elem_of_fmap]%list_elem_of_filter).
    split; [done|]. apply list_elem_of_fmap. exists piece. split; [done|].
    apply list_elem_of_join. exists (split ";" (py_str v)). split; [done|].
    apply list_elem_of_fmap. exists (py_str v). split; [done|].
    apply list_elem_of_fmap. by exists v.
Qed.

(** For each category the list written is in ascending order without
    repetitions, and holds exactly the trimmed non-empty pieces between
    semicolons of the cells of its column, those that are NaN or [None]
    aside; none at all when the sheet lacks the column.  The pieces are
    cut as [process_pdf] cuts them. *)
Theorem generated_labels (df : DataFrame) (key col : string) :
  (key, col) ∈ columns_map →
  ∃ labels,
    (key, labels) ∈ methods df ∧
    Sorted String.le labels ∧ NoDup labels ∧
    Forall (λ l, l ≠ "" ∧ strip l = l) labels ∧
    ∀ l, l ∈ labels ↔
         ∃ series v, getitem df col = Ok series ∧ v ∈ dropna series ∧
                     l ∈ items_of (py_str v).
Proof.
  intros Hin. eexists. split.
  { unfold methods. apply list_elem_of_fmap. by exists (key, col). }
  simpl. destruct (getitem df col) as [series|e].
  - assert (∀ l, l ∈ unique_items (column_items series) ↔
                 ∃ v, v ∈ dropna series ∧ l ∈ items_of (py_str v)) as Hiff.
    { intros l. by rewrite elem_of_unique_items, elem_of_column_items. }
    split; [apply (Sorted_merge_sort _)|]. split; [|split].
    + unfold unique_items. rewrite merge_sort_Permutation.
      apply NoDup_filter, NoDup_unique_from.
    + apply Forall_forall. intros l (v & _ & Hl)%Hiff.
      pose proof (items_of_clean (py_str v)) as Hcl.
      rewrite Forall_forall in Hcl. by destruct (Hcl l Hl) as (? & ? & _).
    + intros l. rewrite Hiff. split.
      * intros (v & ? & ?). by exists series, v.
      * intros (series' & v & [= <-] & ? & ?). by exists v.
  - split; [constructor|]. split; [constructor|]. split; [constructor|].
    intros l. split; [by intros ?%elem_of_nil|].
    by intros (series & v & ? & _).
Qed.

Lemma generated_labels_witness :
  ∃ labels,
    ("Clustering", labels) ∈
      methods (mkDF {["Clustering"]}
                 [ {["Clustering" := PStr "LDA; DTM;"]}; ∅;
                   {["Clustering" := PStr " DTM ; BERTopic"]} ]) ∧
    Sorted String.le labels ∧ NoDup labels ∧
    Forall (λ l, l ≠ "" ∧ strip l = l) labels ∧
    ∀ l, l ∈ labels ↔
         ∃ series v,
           getitem (mkDF {["Clustering"]}
                      [ {["Clustering" := PStr "LDA; DTM;"]}; ∅;
                        {["Clustering" := PStr " DTM ; BERTopic"]} ])
                   "Clustering" = Ok series ∧
           v ∈ dropna series ∧ l ∈ items_of (py_str v).
Proof.
  apply generated_labels.
  apply elem_of_cons. right. apply elem_of_cons. right.
  apply elem_of_cons. left. reflexivity.
Defined.

(** Whatever the sheet, the dictionary written has the four categories
    as its keys, in their order, so the agent that loads it starts in a
    state of the run, each category with the generated labels. *)
Theorem generated_file_loads (df : DataFrame) :
  (methods df).*1 = categories ∧
  consistent (methods df) (Vocabulary.init_normalize_map (methods df)) ∧
  ∀ key, Vocabulary.init_normalize_map (methods df) !! key = None ↔
         key ∉ categories.
Proof.
  assert ((methods df).*1 = categories) as Hkeys by reflexivity.
  assert (NoDup (methods df).*1) as Hnd.
  { rewrite Hkeys. apply (bool_decide_unpack _). by vm_compute. }
  split; [done|]. split; [by apply init_consistent|].
  intros key. rewrite <- Hkeys. split.
  - intros Hnone ([k v] & Heq & Hin)%list_elem_of_fmap.
    simpl in Heq. subst key.
    rewrite (init_lookup _ _ _ Hnd Hin) in Hnone. done.
  - apply init_lookup_None.
Qed.

End GenerateFacts.
